(** * logicGate: capture -> preprocess -> inference -> ranking pipeline

    A shallow embedding of the three application variants of the
    repository (App.js and its two earlier revisions) and the properties
    of their model loader, live loops and result ranking. *)

From Stdlib Require Import ZArith QArith Qround Lia.
From Stdlib Require Import DecimalString DecimalNat DecimalFacts.
From Stdlib Require Import Sorting.Sorted Sorting.Permutation.
From stdpp Require Import gmap strings list.

Close Scope Q_scope.

(** ** Predictions and ranking *)

(** [{ className, probability }].  The probabilities come out of
    [Array.from(dataSync())]; finite IEEE numbers are rationals and the
    sign of the floating-point difference of two finite numbers is the
    sign of their exact difference, so they are modelled as [Q]. *)
Record Prediction := mkPrediction { className : string; probability : Q }.

(** [const LABELS = ['OR', 'AND', 'NOT']] (App.js and the live variant). *)
Definition LABELS : list string := ["OR"; "AND"; "NOT"]%string.

(** [const labels = ['OR', 'AND']] (the one-shot variant). *)
Definition labels : list string := ["OR"; "AND"]%string.

(** The template literal [`class_${i}`]. *)
Definition class_ (i : nat) : string :=
  ("class_" +:+ NilZero.string_of_uint (Nat.to_uint i))%string.

(** [LABELS[i] || `class_${i}`]: an index past the end reads [undefined],
    and the only falsy string is the empty one. *)
Definition labelAt (LABELS : list string) (i : nat) : string :=
  match LABELS !! i with
  | Some l => if decide (l = ""%string) then class_ i else l
  | None => class_ i
  end.

(** [probs.map((p, i) => ({ className: LABELS[i] || `class_${i}`, probability: p }))] *)
Definition toPredictions (LABELS : list string) (probs : list Q) : list Prediction :=
  imap (fun i p => mkPrediction (labelAt LABELS i) p) probs.

(** The comparator [(a, b) => b.probability - a.probability]. *)
Definition compareFn (a b : Prediction) : Q :=
  (probability b - probability a)%Q.

(** [Array.prototype.sort(cmp)]: the sort is stable, [a] is placed after
    [b] exactly when [cmp(a, b) > 0].  For a consistent comparator every
    stable sort returns the same array; it is computed here by insertion
    from the right. *)
Fixpoint sort_insert {A} (cmp : A -> A -> Q) (x : A) (l : list A) : list A :=
  match l with
  | [] => [x]
  | y :: l' => if Qle_bool (cmp x y) 0 then x :: y :: l'
               else y :: sort_insert cmp x l'
  end.

Definition sort {A} (cmp : A -> A -> Q) (l : list A) : list A :=
  foldr (sort_insert cmp) [] l.

(** The three lines shared by every inference site:
    map to predictions, sort, and hand the array on. *)
Definition rank (LABELS : list string) (probs : list Q) : list Prediction :=
  sort compareFn (toPredictions LABELS probs).

(** Same probability, as the comparator sees it. *)
Definition sameProbability (q : Q) (p : Prediction) : bool :=
  Qeq_bool (probability p) q.

Definition nonIncreasing (a b : Prediction) : Prop :=
  (probability b <= probability a)%Q.

(** ** The host: platform, console, tensor engine, timers *)

(** [Platform.OS === 'web'] or a native platform. *)
Inductive OS := web | native.

(** What the code sends to the console or shows in an alert box. *)
Inductive Diagnostic :=
| console_log (msg : string)
| console_warn (msg : string)
| console_error (msg : string)
| alert (msg : string).

(** A loaded [tf.LayersModel]; opaque to the application. *)
Definition Model := nat.

(** The [<video>] element behind [videoRef.current]. *)
Record Video := mkVideo { srcObject : bool }.

(** [webLoopRef.current = { rafId, lastRun, frameIntervalMs }] *)
Record WebLoop := mkWebLoop {
  rafId : option positive;
  lastRun : Z;
  frameIntervalMs : Z }.

(** The [useRef] cells. *)
Record Refs := mkRefs {
  cameraRef : bool;                 (* cameraRef.current is set *)
  videoRef : option Video;          (* videoRef.current *)
  webStreamRef : bool;              (* webStreamRef.current is set *)
  modelRef : option Model;          (* modelRef.current *)
  liveRef : bool;                   (* liveRef.current.running *)
  webLoopRef : WebLoop;             (* webLoopRef.current *)
  nativeLoopRef : option positive   (* nativeLoopRef.current.timeoutId *) }.

(** The [useState] cells of the three variants. *)
Record Hooks := mkHooks {
  hasPermission : option bool;
  videoReady : bool;
  webNeedsStart : bool;
  model : option Model;
  modelLoading : bool;
  loading : bool;
  isTfReady : bool;
  liveRunning : bool;
  predictions : list Prediction;
  photoUri : option string }.

(** The runtime around the component: the tensors the tf engine tracks,
    the animation-frame and timer queues, the capture requests that have
    not resolved yet, and the console. *)
Record Host := mkHost {
  nextTensor : nat;
  liveTensors : gset nat;
  nextHandle : positive;
  rafQueue : gset positive;
  timerQueue : gset positive;
  pendingCaptures : nat;
  console : list Diagnostic }.

Record App := mkApp { refs : Refs; hooks : Hooks; host : Host }.

Definition upd_refs (f : Refs -> Refs) (s : App) : App :=
  mkApp (f (refs s)) (hooks s) (host s).
Definition upd_hooks (f : Hooks -> Hooks) (s : App) : App :=
  mkApp (refs s) (f (hooks s)) (host s).
Definition upd_host (f : Host -> Host) (s : App) : App :=
  mkApp (refs s) (hooks s) (f (host s)).

Definition set_videoRef v (r : Refs) :=
  mkRefs (cameraRef r) v (webStreamRef r) (modelRef r) (liveRef r) (webLoopRef r) (nativeLoopRef r).
Definition set_webStreamRef v (r : Refs) :=
  mkRefs (cameraRef r) (videoRef r) v (modelRef r) (liveRef r) (webLoopRef r) (nativeLoopRef r).
Definition set_modelRef v (r : Refs) :=
  mkRefs (cameraRef r) (videoRef r) (webStreamRef r) v (liveRef r) (webLoopRef r) (nativeLoopRef r).
Definition set_liveRef v (r : Refs) :=
  mkRefs (cameraRef r) (videoRef r) (webStreamRef r) (modelRef r) v (webLoopRef r) (nativeLoopRef r).
Definition set_webLoopRef v (r : Refs) :=
  mkRefs (cameraRef r) (videoRef r) (webStreamRef r) (modelRef r) (liveRef r) v (nativeLoopRef r).
Definition set_nativeLoopRef v (r : Refs) :=
  mkRefs (cameraRef r) (videoRef r) (webStreamRef r) (modelRef r) (liveRef r) (webLoopRef r) v.

Definition set_rafId v (w : WebLoop) := mkWebLoop v (lastRun w) (frameIntervalMs w).
Definition set_lastRun v (w : WebLoop) := mkWebLoop (rafId w) v (frameIntervalMs w).
Definition set_frameIntervalMs v (w : WebLoop) := mkWebLoop (rafId w) (lastRun w) v.

Definition set_hasPermission v (h : Hooks) :=
  mkHooks v (videoReady h) (webNeedsStart h) (model h) (modelLoading h) (loading h)
    (isTfReady h) (liveRunning h) (predictions h) (photoUri h).
Definition set_videoReady v (h : Hooks) :=
  mkHooks (hasPermission h) v (webNeedsStart h) (model h) (modelLoading h) (loading h)
    (isTfReady h) (liveRunning h) (predictions h) (photoUri h).
Definition set_webNeedsStart v (h : Hooks) :=
  mkHooks (hasPermission h) (videoReady h) v (model h) (modelLoading h) (loading h)
    (isTfReady h) (liveRunning h) (predictions h) (photoUri h).
Definition set_model v (h : Hooks) :=
  mkHooks (hasPermission h) (videoReady h) (webNeedsStart h) v (modelLoading h) (loading h)
    (isTfReady h) (liveRunning h) (predictions h) (photoUri h).
Definition set_modelLoading v (h : Hooks) :=
  mkHooks (hasPermission h) (videoReady h) (webNeedsStart h) (model h) v (loading h)
    (isTfReady h) (liveRunning h) (predictions h) (photoUri h).
Definition set_loading v (h : Hooks) :=
  mkHooks (hasPermission h) (videoReady h) (webNeedsStart h) (model h) (modelLoading h) v
    (isTfReady h) (liveRunning h) (predictions h) (photoUri h).
Definition set_isTfReady v (h : Hooks) :=
  mkHooks (hasPermission h) (videoReady h) (webNeedsStart h) (model h) (modelLoading h) (loading h)
    v (liveRunning h) (predictions h) (photoUri h).
Definition set_liveRunning v (h : Hooks) :=
  mkHooks (hasPermission h) (videoReady h) (webNeedsStart h) (model h) (modelLoading h) (loading h)
    (isTfReady h) v (predictions h) (photoUri h).
Definition set_predictions v (h : Hooks) :=
  mkHooks (hasPermission h) (videoReady h) (webNeedsStart h) (model h) (modelLoading h) (loading h)
    (isTfReady h) (liveRunning h) v (photoUri h).
Definition set_photoUri v (h : Hooks) :=
  mkHooks (hasPermission h) (videoReady h) (webNeedsStart h) (model h) (modelLoading h) (loading h)
    (isTfReady h) (liveRunning h) (predictions h) v.

Definition set_tensors n l (h : Host) :=
  mkHost n l (nextHandle h) (rafQueue h) (timerQueue h) (pendingCaptures h) (console h).
Definition set_nextHandle v (h : Host) :=
  mkHost (nextTensor h) (liveTensors h) v (rafQueue h) (timerQueue h) (pendingCaptures h) (console h).
Definition set_rafQueue v (h : Host) :=
  mkHost (nextTensor h) (liveTensors h) (nextHandle h) v (timerQueue h) (pendingCaptures h) (console h).
Definition set_timerQueue v (h : Host) :=
  mkHost (nextTensor h) (liveTensors h) (nextHandle h) (rafQueue h) v (pendingCaptures h) (console h).
Definition set_pendingCaptures v (h : Host) :=
  mkHost (nextTensor h) (liveTensors h) (nextHandle h) (rafQueue h) (timerQueue h) v (console h).
Definition set_console v (h : Host) :=
  mkHost (nextTensor h) (liveTensors h) (nextHandle h) (rafQueue h) (timerQueue h) (pendingCaptures h) v.

(** ** Statements that may throw, over the application state *)

(** How a statement completes: with a value, by throwing, or not at all
    ([Pending]: it is suspended at an [await] whose promise never settles,
    and nothing that comes after it runs). *)
Inductive Completion (A : Type) :=
| Normal (a : A)
| Throw (e : string)
| Pending.
Arguments Normal {A} a.
Arguments Throw {A} e.
Arguments Pending {A}.

Definition JS (A : Type) : Type := App -> Completion A * App.

#[global] Instance JS_ret : MRet JS := fun A a s => (Normal a, s).
#[global] Instance JS_bind : MBind JS := fun A B f m s =>
  match m s with
  | (Normal a, s') => f a s'
  | (Throw e, s') => (Throw e, s')
  | (Pending, s') => (Pending, s')
  end.

Definition get {A} (proj : App -> A) : JS A := fun s => (Normal (proj s), s).
Definition modify (f : App -> App) : JS unit := fun s => (Normal tt, f s).
Definition throw {A} (e : string) : JS A := fun s => (Throw e, s).

(** [await p] on a promise [p] that never settles. *)
Definition never {A} : JS A := fun s => (Pending, s).

(** [try { body } catch (e) { handler }] *)
Definition try_catch {A} (body : JS A) (handler : string -> JS A) : JS A :=
  fun s =>
    match body s with
    | (Normal a, s') => (Normal a, s')
    | (Throw e, s') => handler e s'
    | (Pending, s') => (Pending, s')
    end.

(** [try { body } finally { fin }] *)
Definition try_finally {A} (body : JS A) (fin : JS unit) : JS A :=
  fun s =>
    match body s with
    | (Pending, s') => (Pending, s')
    | (r, s') =>
        match fin s' with
        | (Normal _, s'') => (r, s'')
        | (Throw e, s'') => (Throw e, s'')
        | (Pending, s'') => (Pending, s'')
        end
    end.

(** The state a statement leaves behind, however it completes. *)
Definition exec {A} (m : JS A) (s : App) : App := snd (m s).

Definition emit (d : Diagnostic) : JS unit :=
  modify (upd_host (fun h => set_console (console h ++ [d]) h)).

(** Each tf operation returns a new tensor, tracked by the engine. *)
Definition tf_tensor : JS nat :=
  fun s =>
    let t := nextTensor (host s) in
    (Normal t,
     upd_host (set_tensors (S t) ({[t]} ∪ liveTensors (host s))) s).

(** [tf.dispose([t1, ..., tn])] *)
Definition tf_dispose (ts : list nat) : JS unit :=
  modify (upd_host (fun h =>
    set_tensors (nextTensor h) (liveTensors h ∖ list_to_set ts) h)).

(** [tf.tidy(fn)]: every tensor created while [fn] runs is disposed when
    it returns or throws; all uses in the sources return plain arrays, so
    nothing created inside is kept. *)
Definition tf_tidy {A} (fn : JS A) : JS A :=
  fun s =>
    let before := liveTensors (host s) in
    match fn s with
    | (r, s') =>
        (r, upd_host (fun h =>
              set_tensors (nextTensor h) (liveTensors h ∩ before) h) s')
    end.

(** [requestAnimationFrame(cb)] and [setTimeout(cb, ms)] hand out fresh
    positive handles and queue the callback. *)
Definition requestAnimationFrame : JS positive :=
  fun s =>
    let h := nextHandle (host s) in
    (Normal h,
     upd_host (fun o => set_rafQueue ({[h]} ∪ rafQueue o)
                          (set_nextHandle (Pos.succ h) o)) s).

Definition cancelAnimationFrame (h : positive) : JS unit :=
  modify (upd_host (fun o => set_rafQueue (rafQueue o ∖ {[h]}) o)).

Definition setTimeout : JS positive :=
  fun s =>
    let h := nextHandle (host s) in
    (Normal h,
     upd_host (fun o => set_timerQueue ({[h]} ∪ timerQueue o)
                          (set_nextHandle (Pos.succ h) o)) s).

Definition clearTimeout (h : positive) : JS unit :=
  modify (upd_host (fun o => set_timerQueue (timerQueue o ∖ {[h]}) o)).

(** ** What the outside world answers during one call *)

(** The loader's awaits: [tf.ready()], then the import/fetch of the model
    files and [tf.loadLayersModel]. *)
Inductive LoadOutcome :=
| tfReady_rejects
| loader_rejects
| loader_resolves (m : option Model).

(** [cameraRef.current.takePictureAsync(...)] *)
Inductive TakePicture :=
| takePicture_rejects
| takePicture_resolves (uri base64 : string).

(** The decoding block: [base64ToUint8Array] or the decoder throws, no
    decoder is present on [tf], or a tensor comes back. *)
Inductive Decode := decode_throws | decode_unavailable | decode_returns.

(** A value's [dataSync]: absent, throwing, or returning the numbers. *)
Inductive DataSync :=
| dataSync_missing
| dataSync_throws
| dataSync_returns (data : list Q).

(** [model.predict(x)]: throws, or returns one tensor or an array. *)
Inductive PredictResult :=
| predict_throws
| predict_tensor (d : DataSync)
| predict_array (ds : list DataSync).

(** The value of [out], with the tensors it holds. *)
Inductive Output :=
| out_tensor (t : nat) (d : DataSync)
| out_array (ts : list (nat * DataSync)).

(** Everything external that one iteration or one snapshot observes. *)
Record Frame := mkFrame {
  now : Z;                     (* Date.now() *)
  dataURL : string;            (* canvas.toDataURL('image/jpeg', 0.8) *)
  fromPixels : bool;           (* tf.browser.fromPixels returns *)
  picture : TakePicture;
  decoded : Decode;
  predicted : PredictResult }.

(** An array result holds one fresh tensor per entry. *)
Definition tf_outputs (ds : list DataSync) : JS (list (nat * DataSync)) :=
  fun s =>
    let n := nextTensor (host s) in
    let ids := seq n (length ds) in
    (Normal (zip ids ds),
     upd_host (set_tensors (n + length ds)
                 (list_to_set ids ∪ liveTensors (host s))) s).

(** [m.predict(tensor)] on [m = modelRef.current]; a null model is a
    TypeError. *)
Definition predict (m : option Model) (r : PredictResult) : JS Output :=
  match m with
  | None => throw "TypeError"
  | Some _ =>
      match r with
      | predict_throws => throw "predict"
      | predict_tensor d => t ← tf_tensor; mret (out_tensor t d)
      | predict_array ds => ts ← tf_outputs ds; mret (out_array ts)
      end
  end.

Definition call_dataSync (d : DataSync) : JS (option (list Q)) :=
  match d with
  | dataSync_missing => mret None
  | dataSync_throws => throw "dataSync"
  | dataSync_returns data => mret (Some data)
  end.

(** [let data = null;
     if (Array.isArray(out)) { if (out[0].dataSync) data = out[0].dataSync(); }
     else if (out.dataSync) { data = out.dataSync(); }]
    A typed array is truthy, so [data ? Array.from(data) : null] is the
    array whenever [dataSync] returned. *)
Definition readData (out : Output) : JS (option (list Q)) :=
  match out with
  | out_tensor _ d => call_dataSync d
  | out_array [] => throw "TypeError"
  | out_array ((_, d) :: _) => call_dataSync d
  end.

Definition outputTensors (out : Output) : list nat :=
  match out with
  | out_tensor t _ => [t]
  | out_array ts => ts.*1
  end.

(** [tf.browser.fromPixels(el)] *)
Definition tf_fromPixels (f : Frame) : JS nat :=
  if fromPixels f then tf_tensor else throw "fromPixels".

(** The inner decoding [try] of the native paths, up to its [catch]. *)
Definition decodeImage (f : Frame) : JS (option nat) :=
  match decoded f with
  | decode_throws => throw "decode"
  | decode_unavailable => mret None
  | decode_returns => t ← tf_tensor; mret (Some t)
  end.

Definition setPredictions (v : list Prediction) : JS unit :=
  modify (upd_hooks (set_predictions v)).
Definition setPhotoUri (v : string) : JS unit :=
  modify (upd_hooks (set_photoUri (Some v))).
Definition setModelLoading (v : bool) : JS unit :=
  modify (upd_hooks (set_modelLoading v)).
Definition setLiveRunning (v : bool) : JS unit :=
  modify (upd_hooks (set_liveRunning v)).

(** Which way one animation-frame callback left. *)
Inductive StepExit := Throttled | NotReady | Worked.

(** What a call of the async loader does before its first await. *)
Inductive LoadCall :=
| Resolved (m : option Model)   (* returned [modelRef.current] at once *)
| Loading.                      (* passed the guard and started a load *)

(** What [startLive] and the snapshot handlers await besides a frame:
    [getUserMedia], [video.play()], the loader, and the [modelLoading]
    value the [loadModel] closure in use was created with
    ([useCallback(..., [modelLoading])]). *)
Record Session := mkSession {
  getUserMedia : bool;
  play : bool;
  modelLoadingSeen : bool;
  load : LoadOutcome }.

Definition truthy {A} (o : option A) : bool :=
  match o with Some _ => true | None => false end.

(** [takePictureAsync] is requested, and later settles. *)
Definition capture_request : JS unit :=
  modify (upd_host (fun h => set_pendingCaptures (S (pendingCaptures h)) h)).

Definition capture_settle (f : Frame) : JS (string * string) :=
  modify (upd_host (fun h => set_pendingCaptures (pred (pendingCaptures h)) h));;
  match picture f with
  | takePicture_rejects => throw "takePictureAsync"
  | takePicture_resolves uri base64 => mret (uri, base64)
  end.

(** [resized.div(255.0).expandDims(0)]: two operations, two tensors; the
    name is bound to the second. *)
Definition div_expandDims : JS nat :=
  _ ← tf_tensor; tf_tensor.

(** ** What the bars read from the published predictions *)

(** [const BAR_COLORS = ['#28a745', '#d9534f', '#8a63ff']] *)
Definition BAR_COLORS : list string := ["#28a745"; "#d9534f"; "#8a63ff"]%string.

(** [BAR_COLORS[idx] || '#1976d2'] *)
Definition colorAt (idx : nat) : string :=
  match BAR_COLORS !! idx with
  | Some c => if decide (c = ""%string) then "#1976d2"%string else c
  | None => "#1976d2"%string
  end.

(** [(predictions.find((x) => x.className === label) || { probability: 0 })
     .probability || 0] *)
Definition probabilityOf (predictions : list Prediction) (label : string) : Q :=
  match List.find (fun x => bool_decide (className x = label)) predictions with
  | Some p => probability p
  | None => 0
  end.

(** [Math.round(p * 100)] when the product is exact: halves go up. *)
Definition percent_exact (p : Q) : Z := Qfloor (p * 100 + (1 # 2))%Q.

(** ** Base64 on the native side *)

(** What the runtime offers for base64: [global.atob] (which throws on
    malformed input) and [Buffer.from(input, 'base64').toString('binary')].
    A binary string is the list of its UTF-16 code units. *)
Record Globals := mkGlobals {
  global_atob : option (string -> Completion (list Z));
  Buffer_from : option (string -> list Z) }.

(** [atobPoly] of App.js (53-57) and of part_000 (51-55), which have the
    same text. *)
Definition atobPoly (g : Globals) (input : string) : Completion (list Z) :=
  match global_atob g with
  | Some atob => atob input
  | None =>
      match Buffer_from g with
      | Some from => Normal (from input)
      | None => Throw "atob not available."
      end
  end.

(** [binaryString.charCodeAt(i)]; past the end it is NaN, stored as 0. *)
Definition charCodeAt (binaryString : list Z) (i : nat) : Z :=
  default 0%Z (binaryString !! i).

(** A store into a [Uint8Array] keeps the value modulo 256. *)
Definition toUint8 (x : Z) : Z := (x mod 256)%Z.

(** [base64ToUint8Array] of App.js (58-64) and of part_000 (57-63):
    [new Uint8Array(len)] is zero-filled, then
    [for (let i = 0; i < len; i++) bytes[i] = binaryString.charCodeAt(i)]. *)
Definition base64ToUint8Array (g : Globals) (base64 : string)
  : Completion (list Z) :=
  match atobPoly g base64 with
  | Throw e => Throw e
  | Pending => Pending
  | Normal binaryString =>
      let len := length binaryString in
      Normal (foldl (fun bytes i => <[i := toUint8 (charCodeAt binaryString i)]> bytes)
                (replicate len 0%Z) (seq 0 len))
  end.

(** ** The live variant with start and stop buttons (src/unnamed/part_000) *)
Module Part000.

(** [useRef({ rafId: null, lastRun: 0, frameIntervalMs: 200 })] *)
Definition webLoopRef_init : WebLoop := mkWebLoop None 0 200.

(** [loadModel], up to its first await. *)
Definition loadModel_enter (modelLoading : bool) : JS LoadCall :=
  m ← get (fun s => modelRef (refs s));
  if truthy m || modelLoading then mret (Resolved m)
  else setModelLoading true;; mret Loading.

(** [loadModel], from its first await to its return. *)
Definition loadModel_resume (os : OS) (o : LoadOutcome) : JS (option Model) :=
  try_finally
    (try_catch
       (match o with
        | tfReady_rejects => throw "tf.ready"
        | loader_rejects =>
            modify (upd_hooks (set_isTfReady true));; throw "loadLayersModel"
        | loader_resolves m =>
            modify (upd_hooks (set_isTfReady true));;
            emit (console_log match os with
                              | web => "Model loaded (web)"
                              | native => "Model loaded (native)"
                              end);;
            (if truthy m
             then modify (upd_refs (set_modelRef m));;
                  modify (upd_hooks (set_model m))
             else mret tt);;
            mret m
        end)
       (fun _ =>
          emit (console_error "loadModel error");;
          emit (alert "Gagal memuat model. Lihat console.");;
          mret None))
    (setModelLoading false).

Definition loadModel (os : OS) (modelLoading : bool) (o : LoadOutcome)
  : JS (option Model) :=
  c ← loadModel_enter modelLoading;
  match c with
  | Resolved m => mret m
  | Loading => loadModel_resume os o
  end.

Definition predictFromTensor (f : Frame) (tensor : nat)
  : JS (option (list Prediction)) :=
  m ← get (fun s => modelRef (refs s));
  if truthy m then
    tf_tidy (out ← predict m (predicted f);
             data ← readData out;
             match data with
             | None => mret None
             | Some d => mret (Some (rank LABELS d))
             end)
  else mret None.

(** The animation-frame callback [step] of [runWebLoop]. *)
Definition step (f : Frame) : JS StepExit :=
  h ← requestAnimationFrame;
  modify (upd_refs (fun r => set_webLoopRef (set_rafId (Some h) (webLoopRef r)) r));;
  w ← get (fun s => webLoopRef (refs s));
  if (now f - lastRun w <? frameIntervalMs w)%Z then mret Throttled
  else
    modify (upd_refs (fun r => set_webLoopRef (set_lastRun (now f) (webLoopRef r)) r));;
    v ← get (fun s => videoRef (refs s));
    m ← get (fun s => modelRef (refs s));
    if negb (truthy v) || negb (truthy m) then mret NotReady
    else
      try_catch
        (results ← tf_tidy (t ← tf_fromPixels f;
                             resized ← tf_tensor;
                             normalized ← div_expandDims;
                             m' ← get (fun s => modelRef (refs s));
                             out ← predict m' (predicted f);
                             readData out);
         match results with
         | Some d => setPredictions (rank LABELS d)
         | None => mret tt
         end)
        (fun _ => emit (console_warn "webLoop predict error"));;
      mret Worked.

Definition runWebLoop : JS unit :=
  h ← requestAnimationFrame;
  modify (upd_refs (fun r => set_webLoopRef (set_rafId (Some h) (webLoopRef r)) r)).

Definition stopWebLoop : JS unit :=
  w ← get (fun s => webLoopRef (refs s));
  match rafId w with
  | Some h =>
      cancelAnimationFrame h;;
      modify (upd_refs (fun r => set_webLoopRef (set_rafId None (webLoopRef r)) r))
  | None => mret tt
  end.

(** [runNativeLoop], up to [await takePictureAsync]: [true] when the
    capture was requested. *)
Definition runNativeLoop_enter : JS bool :=
  c ← get (fun s => cameraRef (refs s));
  m ← get (fun s => modelRef (refs s));
  if negb c || negb (truthy m) then mret false
  else capture_request;; mret true.

(** [runNativeLoop], from the capture settling to the end of [finally]. *)
Definition runNativeLoop_resume (f : Frame) : JS unit :=
  try_finally
    (try_catch
       ('(uri, _) ← capture_settle f;
        setPhotoUri uri;;
        imageTensor ← try_catch (decodeImage f)
                        (fun _ => emit (console_warn "native decode error");;
                                  mret None);
        match imageTensor with
        | None => emit (console_warn "native: cannot decode image to tensor")
        | Some t =>
            resized ← tf_tensor;
            normalized ← div_expandDims;
            results ← predictFromTensor f normalized;
            tf_dispose [t; resized; normalized];;
            match results with
            | Some r => setPredictions r
            | None => mret tt
            end
        end)
       (fun _ => emit (console_warn "runNativeLoop error")))
    (running ← get (fun s => liveRef (refs s));
     if (running : bool) then
       h ← setTimeout;
       modify (upd_refs (set_nativeLoopRef (Some h)))
     else mret tt).

Definition runNativeLoop (f : Frame) : JS unit :=
  started ← runNativeLoop_enter;
  if (started : bool) then runNativeLoop_resume f else mret tt.

Definition stopNativeLoop : JS unit :=
  t ← get (fun s => nativeLoopRef (refs s));
  match t with
  | Some h => clearTimeout h;; modify (upd_refs (set_nativeLoopRef None))
  | None => mret tt
  end.

Definition startWebCamera (os : OS) (e : Session) : JS unit :=
  match os with
  | native => mret tt
  | web =>
      try_catch
        (if getUserMedia e then
           modify (upd_refs (set_webStreamRef true));;
           modify (upd_hooks (set_hasPermission (Some true)));;
           modify (upd_hooks (set_webNeedsStart false));;
           v ← get (fun s => videoRef (refs s));
           if truthy v then
             modify (upd_refs (set_videoRef (Some (mkVideo true))));;
             if play e then modify (upd_hooks (set_videoReady true))
             else modify (upd_hooks (set_webNeedsStart true));;
                  emit (console_warn "video play failed")
           else mret tt
         else throw "getUserMedia")
        (fun _ =>
           emit (console_error "startWebCamera error");;
           modify (upd_hooks (set_webNeedsStart true));;
           modify (upd_hooks (set_hasPermission (Some false)));;
           emit (alert "Tidak bisa mengakses kamera. Periksa permission di browser."))
  end.

(** [!videoRef.current || !videoRef.current.srcObject] *)
Definition noVideoSource (v : option Video) : bool :=
  match v with
  | Some el => negb (srcObject el)
  | None => true
  end.

(** The part of [startLive] after the camera checks. *)
Definition startLive_model (os : OS) (e : Session) : JS unit :=
  m0 ← get (fun s => modelRef (refs s));
  m ← (if truthy m0 then mret m0
       else loadModel os (modelLoadingSeen e) (load e));
  if negb (truthy m) then emit (alert "Gagal memuat model.")
  else
    modify (upd_refs (set_liveRef true));;
    setLiveRunning true;;
    match os with
    | web =>
        modify (upd_refs (fun r =>
          set_webLoopRef (set_frameIntervalMs 200 (webLoopRef r)) r));;
        runWebLoop
    | native => _ ← runNativeLoop_enter; mret tt
    end.

Definition startLive (os : OS) (e : Session) : JS unit :=
  running ← get (fun s => liveRef (refs s));
  if (running : bool) then mret tt
  else
    match os with
    | web =>
        v ← get (fun s => videoRef (refs s));
        (if noVideoSource v then startWebCamera os e else mret tt);;
        v' ← get (fun s => videoRef (refs s));
        if noVideoSource v'
        then emit (alert "Kamera belum aktif. Tekan Mulai Kamera terlebih dahulu.")
        else startLive_model os e
    | native =>
        c ← get (fun s => cameraRef (refs s));
        if negb c then emit (alert "Kamera native belum siap.")
        else startLive_model os e
    end.

Definition stopLive : JS unit :=
  modify (upd_refs (set_liveRef false));;
  setLiveRunning false;;
  stopWebLoop;;
  stopNativeLoop.

(** The async function that the Snapshot button runs (part_000:396-446,
    the body of [(async () => { ... })()]); its completion is how the
    promise of that call settles. *)
Definition snapshot (os : OS) (e : Session) (f : Frame) : JS unit :=
  m0 ← get (fun s => modelRef (refs s));
  (if truthy m0 then mret tt
   else _ ← loadModel os (modelLoadingSeen e) (load e); mret tt);;
  m ← get (fun s => modelRef (refs s));
  if negb (truthy m) then mret tt
  else
    match os with
    | web =>
        v ← get (fun s => videoRef (refs s));
        if negb (truthy v) then emit (alert "Video belum siap")
        else
          setPhotoUri (dataURL f);;
          probs ← tf_tidy (t ← tf_fromPixels f;
                           r ← tf_tensor;
                           norm ← div_expandDims;
                           m' ← get (fun s => modelRef (refs s));
                           out ← predict m' (predicted f);
                           readData out);
          match probs with
          | Some d => setPredictions (rank LABELS d)
          | None => mret tt
          end
    | native =>
        c ← get (fun s => cameraRef (refs s));
        if negb c then mret tt
        else
          capture_request;;
          '(uri, _) ← capture_settle f;
          setPhotoUri uri;;
          imageTensor ← try_catch (decodeImage f)
                          (fun _ => emit (console_warn "");; mret None);
          match imageTensor with
          | Some t =>
              r ← tf_tensor;
              norm ← div_expandDims;
              res ← predictFromTensor f norm;
              tf_dispose [t; r; norm];;
              match res with
              | Some a => setPredictions a
              | None => mret tt
              end
          | None => mret tt
          end
    end.


(** The cleanup returned by the mount effect. *)
Definition unmount : JS unit :=
  stopLive;;
  ws ← get (fun s => webStreamRef (refs s));
  (if (ws : bool) then modify (upd_refs (set_webStreamRef false)) else mret tt);;
  modify (upd_refs (set_modelRef None)).

(** One bar of [renderBars]: the label, the percentage, the colour and
    whether the percentage is printed inside the bar ([pct > 5]). *)
Record Bar := mkBar {
  label : string;
  pct : Z;
  barColor : string;
  printed : bool }.

(** [renderBars]; [percent p] stands for the floating-point
    [Math.round((p.probability || 0) * 100)]. *)
Definition renderBars (percent : Q -> Z) (predictions : list Prediction)
  : list Bar :=
  imap (fun idx label =>
          let pct := percent (probabilityOf predictions label) in
          mkBar label pct (colorAt idx) (5 <? pct)%Z) LABELS.

(** The [onPress] handler of the Snapshot button (part_000:394-448):
    [() => { (async () => { ... })(); }].  It calls the async function and
    drops the promise, so whatever the function does to the state happens,
    and the handler returns [undefined] however the promise settles. *)
Definition onPress (os : OS) (e : Session) (f : Frame) : JS unit :=
  fun s => (Normal tt, (snapshot os e f s).2).

End Part000.

(** ** The final application (src/App.js) *)
Module AppJs.

(** [useRef({ rafId: null, lastRun: 0, frameIntervalMs: 180 })] *)
Definition webLoopRef_init : WebLoop := mkWebLoop None 0 180.

(** [loadModel], up to its first await. *)
Definition loadModel_enter (modelLoading : bool) : JS LoadCall :=
  m ← get (fun s => modelRef (refs s));
  if truthy m || modelLoading then mret (Resolved m)
  else setModelLoading true;; mret Loading.

(** [loadModel], from its first await to its return. *)
Definition loadModel_resume (o : LoadOutcome) : JS (option Model) :=
  try_finally
    (try_catch
       (match o with
        | tfReady_rejects => throw "tf.ready"
        | loader_rejects =>
            modify (upd_hooks (set_isTfReady true));; throw "loadLayersModel"
        | loader_resolves m =>
            modify (upd_hooks (set_isTfReady true));;
            (if truthy m then modify (upd_refs (set_modelRef m)) else mret tt);;
            mret m
        end)
       (fun _ =>
          emit (console_error "loadModel error");;
          emit (alert "Gagal memuat model. Lihat console.");;
          mret None))
    (setModelLoading false).

Definition loadModel (modelLoading : bool) (o : LoadOutcome)
  : JS (option Model) :=
  c ← loadModel_enter modelLoading;
  match c with
  | Resolved m => mret m
  | Loading => loadModel_resume o
  end.

(** The body of every [tf.tidy] around [predict] in this file. *)
Definition predictData (f : Frame) : JS (option (list Q)) :=
  m ← get (fun s => modelRef (refs s));
  out ← predict m (predicted f);
  readData out.

(** The animation-frame callback [step] of [runWebLoop]. *)
Definition step (f : Frame) : JS StepExit :=
  h ← requestAnimationFrame;
  modify (upd_refs (fun r => set_webLoopRef (set_rafId (Some h) (webLoopRef r)) r));;
  w ← get (fun s => webLoopRef (refs s));
  if (now f - lastRun w <? frameIntervalMs w)%Z then mret Throttled
  else
    modify (upd_refs (fun r => set_webLoopRef (set_lastRun (now f) (webLoopRef r)) r));;
    v ← get (fun s => videoRef (refs s));
    m ← get (fun s => modelRef (refs s));
    if negb (truthy v) || negb (truthy m) then mret NotReady
    else
      try_catch
        (probs ← tf_tidy (t ← tf_fromPixels f;
                           r ← tf_tensor;
                           norm ← div_expandDims;
                           predictData f);
         match probs with
         | Some d => setPredictions (rank LABELS d)
         | None => mret tt
         end)
        (fun _ => emit (console_warn "webLoop predict error"));;
      mret Worked.

Definition runWebLoop : JS unit :=
  h ← requestAnimationFrame;
  modify (upd_refs (fun r => set_webLoopRef (set_rafId (Some h) (webLoopRef r)) r)).

Definition stopWebLoop : JS unit :=
  w ← get (fun s => webLoopRef (refs s));
  match rafId w with
  | Some h =>
      cancelAnimationFrame h;;
      modify (upd_refs (fun r => set_webLoopRef (set_rafId None (webLoopRef r)) r))
  | None => mret tt
  end.

(** [runNativeLoop], up to [await takePictureAsync]. *)
Definition runNativeLoop_enter : JS bool :=
  c ← get (fun s => cameraRef (refs s));
  m ← get (fun s => modelRef (refs s));
  if negb c || negb (truthy m) then mret false
  else capture_request;; mret true.

(** [runNativeLoop], from the capture settling to the end of [finally]. *)
Definition runNativeLoop_resume (f : Frame) : JS unit :=
  try_finally
    (try_catch
       ('(uri, _) ← capture_settle f;
        setPhotoUri uri;;
        imageTensor ← try_catch (decodeImage f)
                        (fun _ => emit (console_warn "native decode error");;
                                  mret None);
        match imageTensor with
        | None => emit (console_warn "native: cannot decode image to tensor")
        | Some t =>
            resized ← tf_tensor;
            normalized ← div_expandDims;
            out ← tf_tidy (predictData f);
            tf_dispose [t; resized; normalized];;
            match out with
            | Some d => setPredictions (rank LABELS d)
            | None => mret tt
            end
        end)
       (fun _ => emit (console_warn "runNativeLoop error")))
    (running ← get (fun s => liveRef (refs s));
     if (running : bool) then
       h ← setTimeout;
       modify (upd_refs (set_nativeLoopRef (Some h)))
     else mret tt).

Definition runNativeLoop (f : Frame) : JS unit :=
  started ← runNativeLoop_enter;
  if (started : bool) then runNativeLoop_resume f else mret tt.

Definition stopNativeLoop : JS unit :=
  t ← get (fun s => nativeLoopRef (refs s));
  match t with
  | Some h => clearTimeout h;; modify (upd_refs (set_nativeLoopRef None))
  | None => mret tt
  end.

Definition startLiveInternal (os : OS) (e : Session) : JS bool :=
  running ← get (fun s => liveRef (refs s));
  if (running : bool) then mret true
  else
    m0 ← get (fun s => modelRef (refs s));
    m ← (if truthy m0 then mret m0
         else loadModel (modelLoadingSeen e) (load e));
    if negb (truthy m) then emit (alert "Gagal memuat model.");; mret false
    else
      modify (upd_refs (set_liveRef true));;
      setLiveRunning true;;
      match os with
      | web =>
          modify (upd_refs (fun r =>
            set_webLoopRef (set_frameIntervalMs 180 (webLoopRef r)) r));;
          runWebLoop
      | native => _ ← runNativeLoop_enter; mret tt
      end;;
      mret true.

(** The cleanup returned by the mount effect. *)
Definition unmount : JS unit :=
  modify (upd_refs (set_liveRef false));;
  setLiveRunning false;;
  stopWebLoop;;
  stopNativeLoop;;
  modify (upd_refs (set_webStreamRef false));;
  modify (upd_refs (set_modelRef None)).

Definition handleSnapshot (os : OS) (e : Session) (f : Frame) : JS unit :=
  m0 ← get (fun s => modelRef (refs s));
  (if truthy m0 then mret tt
   else _ ← loadModel (modelLoadingSeen e) (load e); mret tt);;
  m ← get (fun s => modelRef (refs s));
  if negb (truthy m) then mret tt
  else
    match os with
    | web =>
        v ← get (fun s => videoRef (refs s));
        if negb (truthy v) then emit (alert "Video belum siap")
        else
          setPhotoUri (dataURL f);;
          probs ← tf_tidy (t ← tf_fromPixels f;
                           r ← tf_tensor;
                           norm ← div_expandDims;
                           predictData f);
          match probs with
          | Some d => setPredictions (rank LABELS d)
          | None => mret tt
          end
    | native =>
        c ← get (fun s => cameraRef (refs s));
        if negb c then mret tt
        else
          capture_request;;
          '(uri, _) ← capture_settle f;
          setPhotoUri uri;;
          imageTensor ← try_catch (decodeImage f)
                          (fun _ => emit (console_warn "");; mret None);
          match imageTensor with
          | Some t =>
              r ← tf_tensor;
              norm ← div_expandDims;
              res ← tf_tidy (predictData f);
              tf_dispose [t; r; norm];;
              match res with
              | Some d => setPredictions (rank LABELS d)
              | None => mret tt
              end
          | None => mret tt
          end
    end.


(** [startWebCamera]: the camera is opened and, once the video plays,
    the live session is started. *)
Definition startWebCamera (os : OS) (e : Session) : JS unit :=
  match os with
  | native => mret tt
  | web =>
      try_catch
        (if getUserMedia e then
           modify (upd_refs (set_webStreamRef true));;
           modify (upd_hooks (set_hasPermission (Some true)));;
           modify (upd_hooks (set_webNeedsStart false));;
           v ← get (fun s => videoRef (refs s));
           if truthy v then
             modify (upd_refs (set_videoRef (Some (mkVideo true))));;
             try_catch
               (if play e then
                  modify (upd_hooks (set_videoReady true));;
                  _ ← startLiveInternal os e; mret tt
                else throw "play")
               (fun _ =>
                  modify (upd_hooks (set_webNeedsStart true));;
                  emit (console_warn "video play failed"))
           else _ ← startLiveInternal os e; mret tt
         else throw "getUserMedia")
        (fun _ =>
           emit (console_error "startWebCamera error");;
           modify (upd_hooks (set_webNeedsStart true));;
           modify (upd_hooks (set_hasPermission (Some false)));;
           emit (alert "Tidak bisa mengakses kamera. Periksa permission di browser."))
  end.

(** The props of one [ProbBar]. *)
Record Bar := mkBar {
  label : string;
  pct : Z;
  color : string;
  highlight : bool }.

(** [renderBars]; [percent p] stands for the floating-point
    [Math.round((p.probability || 0) * 100)]. *)
Definition renderBars (percent : Q -> Z) (predictions : list Prediction)
  : list Bar :=
  let top := className <$> head predictions in
  imap (fun idx label =>
          let pct := percent (probabilityOf predictions label) in
          mkBar label pct (colorAt idx)
            (bool_decide (top = Some label) && (0 <? pct)%Z)) LABELS.

(** [const topPrediction = predictions[0]] *)
Definition topPrediction (predictions : list Prediction) : option Prediction :=
  head predictions.

End AppJs.

(** ** The one-shot variant (src/unnamed/part_001) *)
Module Part001.

(** [atobPoly] of part_001 (110-115): the same tests, another message. *)
Definition atobPoly (g : Globals) (input : string) : Completion (list Z) :=
  match global_atob g with
  | Some atob => atob input
  | None =>
      match Buffer_from g with
      | Some from => Normal (from input)
      | None =>
          Throw "atob not available. Install a base64 polyfill or run in environment with atob/Buffer."
      end
  end.

(** [base64ToUint8Array] of part_001 (117-125). *)
Definition base64ToUint8Array (g : Globals) (base64 : string)
  : Completion (list Z) :=
  match atobPoly g base64 with
  | Throw e => Throw e
  | Pending => Pending
  | Normal binaryString =>
      let len := length binaryString in
      Normal (foldl (fun bytes i => <[i := toUint8 (charCodeAt binaryString i)]> bytes)
                (replicate len 0%Z) (seq 0 len))
  end.

(** The file picker of the web fallback: the promise around the [input]
    element resolves on [change] (with a file, or with none), rejects on
    [error], and stays unsettled when the dialog is dismissed, as no other
    event is listened for. *)
Inductive FilePick :=
| file_picked (objectUrl : string)
| file_none
| file_rejects
| file_dismissed.

(** What one [takeAndClassify] observes besides a frame. *)
Record Shot := mkShot {
  videoFrame : bool;          (* videoRef.current && readyState >= 2 *)
  filePick : FilePick;
  imgLoads : bool;            (* img.onload rather than img.onerror *)
  fsRead : bool;              (* FileSystem.readAsStringAsync resolves *)
  decodedFallback : Decode }.

(** The body of the [try]; [false] when it left through a [return]. *)
Definition takeAndClassify_try (os : OS) (sh : Shot) (f : Frame) : JS bool :=
  proceed ←
    match os with
    | web =>
        (if videoFrame sh then setPhotoUri (dataURL f)
         else match filePick sh with
              | file_picked url => setPhotoUri url
              | file_none => throw "No file selected"
              | file_rejects => throw "input.onerror"
              | file_dismissed => never
              end);;
        mret true
    | native =>
        c ← get (fun s => cameraRef (refs s));
        if negb c then modify (upd_hooks (set_loading false));; mret false
        else
          capture_request;;
          '(uri, _) ← capture_settle f;
          setPhotoUri uri;;
          mret true
    end;
  if negb proceed then mret false
  else
    imageTensor ←
      match os with
      | web =>
          try_catch
            (if videoFrame sh then t ← tf_fromPixels f; mret (Some t)
             else if imgLoads sh then t ← tf_fromPixels f; mret (Some t)
                  else throw "img.onerror")
            (fun _ => emit (console_warn "Web decode failed:");; mret None)
      | native =>
          first ← try_catch (decodeImage f)
                    (fun _ =>
                       emit (console_warn "Gagal mendecode langsung via tfjs decodeJpeg/decodeImage, error:");;
                       mret None);
          if truthy first then mret first
          else
            try_catch
              (if fsRead sh then
                 match decodedFallback sh with
                 | decode_throws => throw "decode"
                 | decode_unavailable => mret None
                 | decode_returns => t ← tf_tensor; mret (Some t)
                 end
               else throw "readAsStringAsync")
              (fun _ => emit (console_warn "Fallback decode failed:");; mret None)
      end;
    match imageTensor with
    | None =>
        setPredictions [mkPrediction "error" 0];;
        modify (upd_hooks (set_loading false));;
        mret false
    | Some t =>
        resized ← tf_tensor;
        normalized ← div_expandDims;
        m ← get (fun s => model (hooks s));
        out ← predict m (predicted f);
        data ← readData out;
        match data with
        | Some d => setPredictions (rank labels d)
        | None => setPredictions [mkPrediction "unknown" 0]
        end;;
        tf_dispose ([t; resized; normalized] ++ outputTensors out);;
        mret true
    end.

Definition takeAndClassify (os : OS) (sh : Shot) (f : Frame) : JS unit :=
  m ← get (fun s => model (hooks s));
  if negb (truthy m) then mret tt
  else
    modify (upd_hooks (set_loading true));;
    fellThrough ←
      try_catch (takeAndClassify_try os sh f)
        (fun _ => emit (console_error "takeAndClassify error:");; mret true);
    if (fellThrough : bool) then modify (upd_hooks (set_loading false))
    else mret tt.


(** [initWebStream] *)
Definition initWebStream (e : Session) : JS unit :=
  try_catch
    (if getUserMedia e then
       modify (upd_hooks (set_hasPermission (Some true)));;
       modify (upd_refs (set_webStreamRef true));;
       v ← get (fun s => videoRef (refs s));
       (if truthy v
        then modify (upd_refs (set_videoRef (Some (mkVideo true))))
        else mret tt);;
       modify (upd_hooks (set_webNeedsStart false))
     else throw "getUserMedia")
    (fun _ =>
       emit (console_warn "Web camera init failed:");;
       modify (upd_hooks (set_hasPermission (Some true)));;
       modify (upd_hooks (set_webNeedsStart true))).

(** The async body of the mount effect; [granted] is the answer of
    [Camera.requestCameraPermissionsAsync()]. *)
Definition mountEffect (os : OS) (granted : bool) (e : Session) : JS unit :=
  match os with
  | web => initWebStream e
  | native => modify (upd_hooks (set_hasPermission (Some granted)))
  end;;
  match load e with
  | tfReady_rejects => throw "tf.ready"
  | o =>
      modify (upd_hooks (set_isTfReady true));;
      try_catch
        (match o with
         | loader_resolves m =>
             modify (upd_hooks (set_model m));;
             emit (console_log match os with
                               | web => "Model loaded (web)"
                               | native => "Model loaded (native)"
                               end)
         | _ => throw "loadLayersModel"
         end)
        (fun _ =>
           emit (console_warn "Gagal memuat model. Pastikan model.json dan weights.bin ada di assets/model dan filename cocok.");;
           emit (console_error "loadLayersModel"))
  end.

End Part001.

(** ** Runs and observations used by the statements *)

(** The host fires the queued animation-frame callback: nothing happens
    when the loop holds no handle or the handle was cancelled. *)
Definition fireFrame (step : Frame -> JS StepExit) (f : Frame)
  : JS (option StepExit) :=
  w ← get (fun s => webLoopRef (refs s));
  q ← get (fun s => rafQueue (host s));
  match rafId w with
  | Some h =>
      if bool_decide (h ∈ q) then
        modify (upd_host (fun o => set_rafQueue (rafQueue o ∖ {[h]}) o));;
        x ← step f; mret (Some x)
      else mret None
  | None => mret None
  end.

(** A sequence of scheduling opportunities, with what each one did and
    when ([Date.now()] of the callback). *)
Fixpoint runFrames (step : Frame -> JS StepExit) (fs : list Frame) (s : App)
  : list (Z * StepExit) :=
  match fs with
  | [] => []
  | f :: fs' =>
      match fireFrame step f s with
      | (Normal (Some x), s') => (now f, x) :: runFrames step fs' s'
      | (_, s') => runFrames step fs' s'
      end
  end.

Definition isWorked (x : StepExit) : bool :=
  match x with Worked => true | _ => false end.

Definition inWindow (t w : Z) (e : Z * StepExit) : bool :=
  isWorked e.2 && (t <=? e.1)%Z && (e.1 <? t + w)%Z.

(** How many callbacks did the expensive work at a time in [[t, t + w)]. *)
Definition workIn (t w : Z) (trace : list (Z * StepExit)) : nat :=
  length (filter (fun e => inWindow t w e = true) trace).

(** The handle a finished load delivers, if any. *)
Definition loaded (o : LoadOutcome) : option Model :=
  match o with
  | loader_resolves m => m
  | _ => None
  end.

(** A frame whose picture, decoding or inference does not come through. *)
Definition pictureFails (f : Frame) : bool :=
  match picture f with takePicture_rejects => true | _ => false end.

Definition decodeFails (f : Frame) : bool :=
  match decoded f with decode_returns => false | _ => true end.

Definition inferenceFails (f : Frame) : bool :=
  match predicted f with
  | predict_throws => true
  | predict_tensor dataSync_throws => true
  | predict_array [] => true
  | predict_array (dataSync_throws :: _) => true
  | _ => false
  end.

(** ** Helpers around the pipeline *)

(** The host fires the timer queued under [h]: the callback is
    [runNativeLoop], which runs up to its capture request. *)
Definition fireTimeout (runNativeLoop_enter : JS bool) (h : positive) : JS bool :=
  q ← get (fun s => timerQueue (host s));
  if bool_decide (h ∈ q) then
    modify (upd_host (fun o => set_timerQueue (timerQueue o ∖ {[h]}) o));;
    runNativeLoop_enter
  else mret false.

(** [config.resolver] of the Metro configuration, as far as the file
    touches it. *)
Record Resolver := mkResolver { assetExts : option (list string) }.

(** [config.resolver = config.resolver || {};
     config.resolver.assetExts = config.resolver.assetExts || [];
     if (!config.resolver.assetExts.includes('bin')) config.resolver.assetExts.push('bin');] *)
Definition metro_config (resolver : option Resolver) : Resolver :=
  let r := default (mkResolver None) resolver in
  let exts := default [] (assetExts r) in
  mkResolver (Some (if bool_decide ("bin"%string ∈ exts) then exts
                    else exts ++ ["bin"%string])).

(** ** Concrete runs *)

(** The component once mounted, with the camera and the video element in
    place and nothing loaded or running. *)
Definition mounted (w : WebLoop) : App :=
  mkApp (mkRefs true (Some (mkVideo true)) true None false w None)
        (mkHooks (Some true) true false None false false false false [] None)
        (mkHost 0 ∅ 1 ∅ ∅ 0 []).

(** A session in which the camera starts and the loader delivers model 1. *)
Definition session_ok : Session :=
  mkSession true true false (loader_resolves (Some 1)).

(** A session in which the loader rejects. *)
Definition session_noModel : Session :=
  mkSession true true false loader_rejects.

(** A frame read at time [n] on which capture and decoding succeed and
    the model answers [pr]. *)
Definition frame_at (n : Z) (pr : PredictResult) : Frame :=
  mkFrame n "data:image/jpeg;base64," true
    (takePicture_resolves "file:///photo.jpg" "/9j/") decode_returns pr.

(** A frame read at time [n] on which the capture succeeds and no decoder
    is to be found: neither [tf.node.decodeImage] nor [tf.decodeJpeg]
    exists, as is the case for the [@tensorflow/tfjs] the sources import. *)
Definition frame_no_decoder (n : Z) : Frame :=
  mkFrame n "data:image/jpeg;base64," true
    (takePicture_resolves "file:///photo.jpg" "/9j/") decode_unavailable
    predict_throws.

(** The live variant, running on each platform. *)
Definition running_000 (os : OS) : App :=
  exec (Part000.startLive os session_ok) (mounted Part000.webLoopRef_init).

(** App.js, running on each platform. *)
Definition running_app (os : OS) : App :=
  exec (AppJs.startLiveInternal os session_ok) (mounted AppJs.webLoopRef_init).


Definition shot : Part001.Shot :=
  Part001.mkShot true (Part001.file_picked "blob:photo") true true decode_returns.


(** Sixty-three scheduling opportunities 16 ms apart, starting at [t0]. *)
Definition frames16 (t0 : Z) (pr : PredictResult) : list Frame :=
  map (fun i => frame_at (t0 + 16 * Z.of_nat i) pr) (seq 0 63).

(** ** Predicates of the statements *)

(** The running flag (ref and state cell), the animation-frame handle
    with the rest of [webLoopRef], the timer handle, and the two queues
    behind the handles. *)
Definition loopState (s : App)
  : bool * bool * WebLoop * option positive * gset positive * gset positive :=
  (liveRef (refs s), liveRunning (hooks s), webLoopRef (refs s),
   nativeLoopRef (refs s), rafQueue (host s), timerQueue (host s)).

Definition KeepsLoop {A} (m : JS A) : Prop :=
  forall s, loopState (exec m s) = loopState s.

(** What "confined to the iteration" means for a native iteration that
    ends in [s'] having begun in [s]: it returned normally, published
    nothing, logged something, left the running flag alone and armed the
    next timer. *)
Definition nativeConfined (r : Completion unit) (s s' : App) : Prop :=
  r = Normal tt
  /\ predictions (hooks s') = predictions (hooks s)
  /\ (exists d ds, console (host s') = console (host s) ++ d :: ds)
  /\ liveRef (refs s') = liveRef (refs s)
  /\ liveRunning (hooks s') = liveRunning (hooks s)
  /\ nativeLoopRef (refs s') = Some (nextHandle (host s))
  /\ timerQueue (host s') = {[nextHandle (host s)]} ∪ timerQueue (host s).

(** The same for an animation-frame callback. *)
Definition webConfined (r : Completion StepExit) (s s' : App) : Prop :=
  r = Normal Worked
  /\ predictions (hooks s') = predictions (hooks s)
  /\ console (host s') = console (host s) ++ [console_warn "webLoop predict error"]
  /\ liveRef (refs s') = liveRef (refs s)
  /\ liveRunning (hooks s') = liveRunning (hooks s)
  /\ rafId (webLoopRef (refs s')) = Some (nextHandle (host s))
  /\ rafQueue (host s') = {[nextHandle (host s)]} ∪ rafQueue (host s).

(** Callbacks that got past the throttle are at least [I] apart, the
    first one at least [I] after [l]. *)
Fixpoint Spaced (I l : Z) (trace : list (Z * StepExit)) : Prop :=
  match trace with
  | [] => True
  | (t, Throttled) :: trace' => Spaced I l trace'
  | (t, _) :: trace' => (I <= t - l)%Z /\ Spaced I t trace'
  end.

(** What the bound needs to know about a callback. *)
Definition Throttles (step : Frame -> JS StepExit) : Prop :=
  forall f s, exists x s',
    step f s = (Normal x, s')
    /\ frameIntervalMs (webLoopRef (refs s')) = frameIntervalMs (webLoopRef (refs s))
    /\ match x with
       | Throttled => lastRun (webLoopRef (refs s')) = lastRun (webLoopRef (refs s))
       | _ => lastRun (webLoopRef (refs s')) = now f
              /\ (frameIntervalMs (webLoopRef (refs s))
                  <= now f - lastRun (webLoopRef (refs s)))%Z
       end.


(** ** Runs of the two loops *)

(** The state after a sequence of scheduling opportunities. *)
Fixpoint afterFrames (step : Frame -> JS StepExit) (fs : list Frame) (s : App)
  : App :=
  match fs with
  | [] => s
  | f :: fs' => afterFrames step fs' (exec (fireFrame step f) s)
  end.

(** The web loop holds one queued callback, the only one in the queue,
    under a handle already handed out. *)
Definition armedOnce (s : App) : Prop :=
  exists h, rafId (webLoopRef (refs s)) = Some h
            /\ rafQueue (host s) = {[h]}
            /\ (h < nextHandle (host s))%positive.

(** A native session with its one capture in flight and no timer. *)
Definition capturing (s : App) : Prop :=
  cameraRef (refs s) = true /\ truthy (modelRef (refs s)) = true
  /\ liveRef (refs s) = true
  /\ pendingCaptures (host s) = 1 /\ timerQueue (host s) = ∅.

(** The capture settles and the iteration runs to its end; then the timer
    it armed, if any, fires. *)
Definition nativeCycle (enter : JS bool) (resume : Frame -> JS unit)
    (f : Frame) (s : App) : App :=
  let s1 := exec (resume f) s in
  match nativeLoopRef (refs s1) with
  | Some h => exec (fireTimeout enter h) s1
  | None => s1
  end.

(** Every callback leaves through a normal return with the next callback
    queued under the handle that was next. *)
Definition Rearms (step : Frame -> JS StepExit) : Prop :=
  forall f s, exists x s',
    step f s = (Normal x, s')
    /\ rafId (webLoopRef (refs s')) = Some (nextHandle (host s))
    /\ rafQueue (host s') = {[nextHandle (host s)]} ∪ rafQueue (host s)
    /\ nextHandle (host s') = Pos.succ (nextHandle (host s)).

(** What an iteration of a running session leaves behind, whatever the
    frame brings. *)
Definition RearmsTimer (resume : Frame -> JS unit) : Prop :=
  forall f s, liveRef (refs s) = true ->
    let s' := exec (resume f) s in
    cameraRef (refs s') = cameraRef (refs s)
    /\ modelRef (refs s') = modelRef (refs s)
    /\ liveRef (refs s') = true
    /\ nativeLoopRef (refs s') = Some (nextHandle (host s))
    /\ timerQueue (host s') = {[nextHandle (host s)]} ∪ timerQueue (host s)
    /\ nextHandle (host s') = Pos.succ (nextHandle (host s))
    /\ pendingCaptures (host s') = pred (pendingCaptures (host s)).

(** What the entry of [runNativeLoop] does when camera and model are set. *)
Definition RequestsCapture (enter : JS bool) : Prop :=
  forall s, cameraRef (refs s) = true -> truthy (modelRef (refs s)) = true ->
    enter s = (Normal true,
               upd_host (fun h => set_pendingCaptures (S (pendingCaptures h)) h) s).

(** ** Ranking lemmas *)

Lemma sort_insert_perm {A} (cmp : A -> A -> Q) x l :
  Permutation (x :: l) (sort_insert cmp x l).
Proof.
  induction l as [|y l IH]; simpl; [done|].
  destruct (Qle_bool (cmp x y) 0); [done|].
  etransitivity; [apply perm_swap|]. by apply perm_skip.
Qed.

Lemma sort_perm {A} (cmp : A -> A -> Q) l : Permutation l (sort cmp l).
Proof.
  induction l as [|x l IH]; simpl; [done|].
  etransitivity; [|apply sort_insert_perm]. by apply perm_skip.
Qed.

Lemma compareFn_le a b :
  Qle_bool (compareFn a b) 0 = true <-> nonIncreasing a b.
Proof.
  unfold compareFn, nonIncreasing. rewrite Qle_bool_iff.
  split; intros H.
  - apply Qle_minus_iff in H. apply Qle_minus_iff.
    setoid_replace (probability a + - probability b)%Q
      with (0 + - (probability b - probability a))%Q using relation Qeq
      by ring. exact H.
  - apply Qle_minus_iff in H. apply Qle_minus_iff.
    setoid_replace (0 + - (probability b - probability a))%Q
      with (probability a + - probability b)%Q using relation Qeq
      by ring. exact H.
Qed.

Lemma compareFn_gt a b :
  Qle_bool (compareFn a b) 0 = false -> (probability a < probability b)%Q.
Proof.
  intros H. apply Qnot_le_lt. intros Hle.
  apply compareFn_le in Hle. congruence.
Qed.

Lemma sort_insert_sorted x l :
  StronglySorted nonIncreasing l ->
  StronglySorted nonIncreasing (sort_insert compareFn x l).
Proof.
  induction 1 as [|y l Hs IH Hy]; simpl.
  - repeat constructor.
  - destruct (Qle_bool (compareFn x y) 0) eqn:E.
    + apply compareFn_le in E. constructor; [by constructor|].
      constructor; [done|].
      eapply Forall_impl; [exact Hy|].
      intros z Hz. unfold nonIncreasing in *.
      eapply Qle_trans; [exact Hz|exact E].
    + apply compareFn_gt in E. constructor; [done|].
      eapply Permutation_Forall; [apply sort_insert_perm|].
      constructor; [|done]. unfold nonIncreasing. by apply Qlt_le_weak.
Qed.

Lemma sort_sorted l : StronglySorted nonIncreasing (sort compareFn l).
Proof.
  induction l as [|x l IH]; simpl; [constructor|].
  by apply sort_insert_sorted.
Qed.

Lemma sort_insert_filter_other q x l :
  sameProbability q x = false ->
  filter (fun p => sameProbability q p = true) (sort_insert compareFn x l)
  = filter (fun p => sameProbability q p = true) l.
Proof.
  intros Hx. induction l as [|y l IH]; simpl.
  - rewrite filter_cons, Hx. by destruct (decide _).
  - destruct (Qle_bool (compareFn x y) 0).
    + rewrite (filter_cons _ x), Hx. by destruct (decide _).
    + rewrite !(filter_cons _ y), IH. done.
Qed.

Lemma sort_insert_filter_same q x l :
  StronglySorted nonIncreasing l ->
  sameProbability q x = true ->
  filter (fun p => sameProbability q p = true) (sort_insert compareFn x l)
  = x :: filter (fun p => sameProbability q p = true) l.
Proof.
  intros Hs Hx. induction Hs as [|y l Hs IH Hy]; simpl.
  - rewrite filter_cons, Hx. by destruct (decide _).
  - destruct (Qle_bool (compareFn x y) 0) eqn:E.
    + rewrite (filter_cons _ x), Hx. by destruct (decide _).
    + apply compareFn_gt in E.
      assert (Hny : sameProbability q y = false).
      { unfold sameProbability in *. apply Qeq_bool_iff in Hx.
        destruct (Qeq_bool (probability y) q) eqn:Ey; [|done].
        apply Qeq_bool_iff in Ey. rewrite Hx, Ey in E.
        by apply Qlt_irrefl in E. }
      rewrite !(filter_cons _ y), Hny, IH.
      by destruct (decide _).
Qed.

Lemma sort_stable q l :
  filter (fun p => sameProbability q p = true) (sort compareFn l)
  = filter (fun p => sameProbability q p = true) l.
Proof.
  induction l as [|x l IH]; simpl; [done|].
  destruct (sameProbability q x) eqn:Hx.
  - rewrite sort_insert_filter_same by (apply sort_sorted || done).
    rewrite filter_cons, Hx, IH. by destruct (decide _).
  - rewrite sort_insert_filter_other by done.
    rewrite filter_cons, Hx, IH. by destruct (decide _).
Qed.


(** ** The scheduling state and the statements that leave it alone *)

Lemma keeps_ret {A} (a : A) : KeepsLoop (mret a).
Proof. by intros s. Qed.

Lemma keeps_throw {A} e : KeepsLoop (@throw A e).
Proof. by intros s. Qed.

Lemma keeps_get {A} (proj : App -> A) : KeepsLoop (get proj).
Proof. by intros s. Qed.

Lemma keeps_bind {A B} (m : JS A) (k : A -> JS B) :
  KeepsLoop m -> (forall a, KeepsLoop (k a)) -> KeepsLoop (m ≫= k).
Proof.
  intros Hm Hk s. specialize (Hm s). unfold exec, mbind, JS_bind in *.
  destruct (m s) as [[a|e|] s1]; simpl in *; [|done..].
  rewrite <- Hm. apply Hk.
Qed.

Lemma keeps_try_catch {A} (m : JS A) (h : string -> JS A) :
  KeepsLoop m -> (forall e, KeepsLoop (h e)) -> KeepsLoop (try_catch m h).
Proof.
  intros Hm Hh s. specialize (Hm s). unfold exec, try_catch in *.
  destruct (m s) as [[a|e|] s1]; simpl in *; [done| |done].
  rewrite <- Hm. apply Hh.
Qed.

Lemma keeps_try_finally {A} (m : JS A) (fin : JS unit) :
  KeepsLoop m -> KeepsLoop fin -> KeepsLoop (try_finally m fin).
Proof.
  intros Hm Hf s. specialize (Hm s). unfold exec, try_finally in *.
  destruct (m s) as [r s1]; simpl in *. specialize (Hf s1).
  unfold exec in Hf.
  destruct r; [| |done];
    destruct (fin s1) as [[u|e'|] s2]; simpl in *; congruence.
Qed.

Lemma keeps_tidy {A} (m : JS A) : KeepsLoop m -> KeepsLoop (tf_tidy m).
Proof.
  intros Hm s. specialize (Hm s). unfold exec, tf_tidy in *.
  destruct (m s) as [r s1]; simpl in *. exact Hm.
Qed.

Lemma keeps_tensor : KeepsLoop tf_tensor.
Proof. by intros s. Qed.

Lemma keeps_dispose ts : KeepsLoop (tf_dispose ts).
Proof. by intros s. Qed.

Lemma keeps_emit d : KeepsLoop (emit d).
Proof. by intros s. Qed.

Lemma keeps_setPredictions v : KeepsLoop (setPredictions v).
Proof. by intros s. Qed.

Lemma keeps_setPhotoUri v : KeepsLoop (setPhotoUri v).
Proof. by intros s. Qed.

Lemma keeps_setModelLoading v : KeepsLoop (setModelLoading v).
Proof. by intros s. Qed.

Lemma keeps_capture_request : KeepsLoop capture_request.
Proof. by intros s. Qed.

Create HintDb keeps.
#[export] Hint Resolve keeps_ret keeps_throw keeps_get keeps_tensor
  keeps_dispose keeps_emit keeps_setPredictions keeps_setPhotoUri
  keeps_setModelLoading keeps_capture_request : keeps.

(** One structural step: split a sequence or a handler, or branch on the
    scrutinee of a conditional. *)
Ltac keeps_step :=
  match goal with
  | |- KeepsLoop (mbind _ _) => apply keeps_bind; [|intros ?]
  | |- KeepsLoop (try_catch _ _) => apply keeps_try_catch; [|intros ?]
  | |- KeepsLoop (try_finally _ _) => apply keeps_try_finally
  | |- KeepsLoop (tf_tidy _) => apply keeps_tidy
  | |- KeepsLoop (if ?b then _ else _) => destruct b
  | |- KeepsLoop (match ?x with _ => _ end) => destruct x
  | |- KeepsLoop (modify _) => intros ?; reflexivity
  | |- KeepsLoop _ => solve [auto with keeps]
  end.

Ltac keeps := repeat keeps_step.

Lemma keeps_capture_settle f : KeepsLoop (capture_settle f).
Proof. unfold capture_settle. keeps. Qed.

Lemma keeps_div_expandDims : KeepsLoop div_expandDims.
Proof. unfold div_expandDims. keeps. Qed.

Lemma keeps_tf_outputs ds : KeepsLoop (tf_outputs ds).
Proof. by intros s. Qed.

Lemma keeps_predict m r : KeepsLoop (predict m r).
Proof. unfold predict. pose proof keeps_tf_outputs. keeps. Qed.

Lemma keeps_readData out : KeepsLoop (readData out).
Proof. unfold readData, call_dataSync. keeps. Qed.

Lemma keeps_fromPixels f : KeepsLoop (tf_fromPixels f).
Proof. unfold tf_fromPixels. keeps. Qed.

Lemma keeps_decodeImage f : KeepsLoop (decodeImage f).
Proof. unfold decodeImage. keeps. Qed.

#[export] Hint Resolve keeps_capture_settle keeps_div_expandDims keeps_predict
  keeps_readData keeps_fromPixels keeps_decodeImage : keeps.

Lemma keeps_loadModel_000 os seen o : KeepsLoop (Part000.loadModel os seen o).
Proof.
  unfold Part000.loadModel, Part000.loadModel_enter, Part000.loadModel_resume.
  keeps.
Qed.

Lemma keeps_loadModel_app seen o : KeepsLoop (AppJs.loadModel seen o).
Proof.
  unfold AppJs.loadModel, AppJs.loadModel_enter, AppJs.loadModel_resume.
  keeps.
Qed.

Lemma keeps_predictFromTensor f t : KeepsLoop (Part000.predictFromTensor f t).
Proof. unfold Part000.predictFromTensor. keeps. Qed.

Lemma keeps_predictData f : KeepsLoop (AppJs.predictData f).
Proof. unfold AppJs.predictData. keeps. Qed.

#[export] Hint Resolve keeps_loadModel_000 keeps_loadModel_app
  keeps_predictFromTensor keeps_predictData : keeps.

(** C10: whatever the platform, the loader, the camera and the model
    answer, and whether or not the live loop is running, the snapshot
    handler of either live variant leaves the running flag (ref and state
    cell), [webLoopRef] with its animation-frame handle, the native timer
    handle and both host queues exactly as they were. *)
Theorem snapshot_keeps_loop os e f s :
  loopState (exec (AppJs.handleSnapshot os e f) s) = loopState s
  /\ loopState (exec (Part000.snapshot os e f) s) = loopState s.
Proof.
  split.
  - revert s. change (KeepsLoop (AppJs.handleSnapshot os e f)).
    unfold AppJs.handleSnapshot. keeps.
  - revert s. change (KeepsLoop (Part000.snapshot os e f)).
    unfold Part000.snapshot. keeps.
Qed.

(** ** Starting the live session *)

Lemma startLive_running os e s :
  liveRef (refs s) = true -> Part000.startLive os e s = (Normal tt, s).
Proof.
  intros H. unfold Part000.startLive, mbind, JS_bind, get. by rewrite H.
Qed.

Lemma startLiveInternal_running os e s :
  liveRef (refs s) = true -> AppJs.startLiveInternal os e s = (Normal true, s).
Proof.
  intros H. unfold AppJs.startLiveInternal, mbind, JS_bind, get. by rewrite H.
Qed.

Lemma startLive_load_fails os e s :
  liveRef (refs s) = false -> modelRef (refs s) = None ->
  loaded (load e) = None ->
  loopState (exec (Part000.startLive os e) s) = loopState s
  /\ pendingCaptures (host (exec (Part000.startLive os e) s))
     = pendingCaptures (host s).
Proof.
  destruct s as [[c v ws m l w nl] hk ho]. simpl. intros -> -> Hl.
  destruct e as [gum pl seen [| |[m|]]]; simpl in Hl; try discriminate;
    destruct os, seen, c, gum, pl, v as [[[]]|]; split; reflexivity.
Qed.

Lemma startLiveInternal_load_fails os e s :
  liveRef (refs s) = false -> modelRef (refs s) = None ->
  loaded (load e) = None ->
  (AppJs.startLiveInternal os e s).1 = Normal false
  /\ loopState (exec (AppJs.startLiveInternal os e) s) = loopState s
  /\ pendingCaptures (host (exec (AppJs.startLiveInternal os e) s))
     = pendingCaptures (host s).
Proof.
  destruct s as [[c v ws m l w nl] hk ho]. simpl. intros -> -> Hl.
  destruct e as [gum pl seen [| |[m|]]]; simpl in Hl; try discriminate;
    destruct os, seen; repeat split; reflexivity.
Qed.

(** C7: starting while the session is running changes nothing at all (no
    flag, no handle, no queue entry); and when the session is idle, no
    model is held and the loader delivers none, the start ends with the
    running flag still false, the loop handles and host queues untouched
    and no capture requested ([startLiveInternal] answering [false]). *)
Theorem start_noop_or_stays_idle os e s :
  (liveRef (refs s) = true ->
     Part000.startLive os e s = (Normal tt, s)
     /\ AppJs.startLiveInternal os e s = (Normal true, s))
  /\ (liveRef (refs s) = false -> modelRef (refs s) = None ->
      loaded (load e) = None ->
      let s1 := exec (Part000.startLive os e) s in
      let s2 := exec (AppJs.startLiveInternal os e) s in
      liveRef (refs s1) = false /\ liveRef (refs s2) = false
      /\ loopState s1 = loopState s /\ loopState s2 = loopState s
      /\ pendingCaptures (host s1) = pendingCaptures (host s)
      /\ pendingCaptures (host s2) = pendingCaptures (host s)
      /\ (AppJs.startLiveInternal os e s).1 = Normal false).
Proof.
  split.
  - intros H. split; [by apply startLive_running|by apply startLiveInternal_running].
  - intros Hr Hm Hl s1 s2.
    destruct (startLive_load_fails os e s Hr Hm Hl) as [L1 P1].
    destruct (startLiveInternal_load_fails os e s Hr Hm Hl) as (R2 & L2 & P2).
    fold s1 in L1, P1. fold s2 in L2, P2.
    assert (E1 : liveRef (refs s1) = liveRef (refs s)).
    { unfold loopState in L1. congruence. }
    assert (E2 : liveRef (refs s2) = liveRef (refs s)).
    { unfold loopState in L2. congruence. }
    rewrite Hr in E1, E2. repeat split; assumption.
Qed.

(** ** Failures inside one iteration *)


Ltac confined :=
  repeat split;
  first [reflexivity
        |eexists; eexists; simpl; rewrite <- ?app_assoc; reflexivity].

Lemma runNativeLoop_000_failure f s :
  liveRef (refs s) = true -> truthy (modelRef (refs s)) = true ->
  pictureFails f || decodeFails f || inferenceFails f = true ->
  nativeConfined (Part000.runNativeLoop_resume f s).1 s
    (exec (Part000.runNativeLoop_resume f) s).
Proof.
  destruct s as [[c v ws [m|] l w nl] hk ho]; simpl; [|done].
  intros -> _.
  destruct f as [n du fp [|uri b64] dec pr];
    unfold pictureFails, decodeFails, inferenceFails; simpl.
  { intros _. confined. }
  destruct dec; simpl.
  - intros _. confined.
  - intros _. confined.
  - destruct pr as [|[| |d]|[|[| |d] ds]]; simpl;
      first [discriminate|intros _; confined].
Qed.

Lemma runNativeLoop_app_failure f s :
  liveRef (refs s) = true -> truthy (modelRef (refs s)) = true ->
  pictureFails f || decodeFails f || inferenceFails f = true ->
  nativeConfined (AppJs.runNativeLoop_resume f s).1 s
    (exec (AppJs.runNativeLoop_resume f) s).
Proof.
  destruct s as [[c v ws [m|] l w nl] hk ho]; simpl; [|done].
  intros -> _.
  destruct f as [n du fp [|uri b64] dec pr];
    unfold pictureFails, decodeFails, inferenceFails; simpl.
  { intros _. confined. }
  destruct dec; simpl.
  - intros _. confined.
  - intros _. confined.
  - destruct pr as [|[| |d]|[|[| |d] ds]]; simpl;
      first [discriminate|intros _; confined].
Qed.

Lemma step_000_failure f s :
  (frameIntervalMs (webLoopRef (refs s)) <= now f - lastRun (webLoopRef (refs s)))%Z ->
  truthy (videoRef (refs s)) = true -> truthy (modelRef (refs s)) = true ->
  negb (fromPixels f) || inferenceFails f = true ->
  webConfined (Part000.step f s).1 s (exec (Part000.step f) s).
Proof.
  destruct s as [[c [v|] ws [m|] l [raf lr fi] nl] hk ho]; simpl; try done.
  destruct f as [n du fp pic dec pr]; simpl.
  intros Hle%Z.ltb_ge _ _ Hf.
  unfold webConfined, exec, Part000.step, mbind, JS_bind; simpl.
  rewrite Hle; simpl.
  destruct fp; simpl in Hf; [|confined].
  unfold inferenceFails in Hf; simpl in Hf.
  destruct pr as [|[| |d]|[|[| |d] ds]]; simpl in *;
    first [discriminate|confined].
Qed.

Lemma step_app_failure f s :
  (frameIntervalMs (webLoopRef (refs s)) <= now f - lastRun (webLoopRef (refs s)))%Z ->
  truthy (videoRef (refs s)) = true -> truthy (modelRef (refs s)) = true ->
  negb (fromPixels f) || inferenceFails f = true ->
  webConfined (AppJs.step f s).1 s (exec (AppJs.step f) s).
Proof.
  destruct s as [[c [v|] ws [m|] l [raf lr fi] nl] hk ho]; simpl; try done.
  destruct f as [n du fp pic dec pr]; simpl.
  intros Hle%Z.ltb_ge _ _ Hf.
  unfold webConfined, exec, AppJs.step, mbind, JS_bind; simpl.
  rewrite Hle; simpl.
  destruct fp; simpl in Hf; [|confined].
  unfold inferenceFails in Hf; simpl in Hf.
  destruct pr as [|[| |d]|[|[| |d] ds]]; simpl in *;
    first [discriminate|confined].
Qed.

(** C8: a native iteration of a running session whose picture, decoding
    or inference fails, and an animation-frame callback whose pixel read or
    inference fails, both return normally, leave the published predictions
    as they were, write to the console, leave the running flag (ref and
    state cell) unchanged and have the next iteration queued under a fresh
    handle; in both live variants. *)
Theorem iteration_failure_confined f s :
  truthy (modelRef (refs s)) = true ->
  (liveRef (refs s) = true ->
   pictureFails f || decodeFails f || inferenceFails f = true ->
   nativeConfined (AppJs.runNativeLoop_resume f s).1 s
     (exec (AppJs.runNativeLoop_resume f) s)
   /\ nativeConfined (Part000.runNativeLoop_resume f s).1 s
        (exec (Part000.runNativeLoop_resume f) s))
  /\ ((frameIntervalMs (webLoopRef (refs s))
       <= now f - lastRun (webLoopRef (refs s)))%Z ->
      truthy (videoRef (refs s)) = true ->
      negb (fromPixels f) || inferenceFails f = true ->
      webConfined (AppJs.step f s).1 s (exec (AppJs.step f) s)
      /\ webConfined (Part000.step f s).1 s (exec (Part000.step f) s)).
Proof.
  intros Hm. split.
  - intros Hr Hf. split.
    + by apply runNativeLoop_app_failure.
    + by apply runNativeLoop_000_failure.
  - intros Ht Hv Hf. split.
    + by apply step_app_failure.
    + by apply step_000_failure.
Qed.

(** ** The throttle of the animation-frame loop *)


Lemma step_000_throttles : Throttles Part000.step.
Proof.
  intros f s.
  destruct s as [[c v ws m l [raf lr fi] nl] hk ho].
  destruct f as [n du fp pic dec pr].
  unfold Part000.step, mbind, JS_bind; simpl.
  destruct (n - lr <? fi)%Z eqn:E; simpl.
  { eexists _, _. split; [reflexivity|]. by simpl. }
  apply Z.ltb_ge in E.
  destruct v as [v|], m as [m|]; simpl;
    try (eexists _, _; split; [reflexivity|]; by simpl).
  destruct fp; simpl;
    [|eexists _, _; split; [reflexivity|]; by simpl].
  destruct pr as [|[| |d]|[|[| |d] ds]]; simpl;
    eexists _, _; (split; [reflexivity|]); by simpl.
Qed.

Lemma step_app_throttles : Throttles AppJs.step.
Proof.
  intros f s.
  destruct s as [[c v ws m l [raf lr fi] nl] hk ho].
  destruct f as [n du fp pic dec pr].
  unfold AppJs.step, mbind, JS_bind; simpl.
  destruct (n - lr <? fi)%Z eqn:E; simpl.
  { eexists _, _. split; [reflexivity|]. by simpl. }
  apply Z.ltb_ge in E.
  destruct v as [v|], m as [m|]; simpl;
    try (eexists _, _; split; [reflexivity|]; by simpl).
  destruct fp; simpl;
    [|eexists _, _; split; [reflexivity|]; by simpl].
  destruct pr as [|[| |d]|[|[| |d] ds]]; simpl;
    eexists _, _; (split; [reflexivity|]); by simpl.
Qed.

Lemma spaced_window I l trace :
  (0 < I)%Z -> Spaced I l trace ->
  forall t w (k : nat),
    (t + w - Z.max t (l + I) <= Z.of_nat k * I)%Z ->
    workIn t w trace <= k.
Proof.
  intros HI. revert l. unfold workIn.
  induction trace as [|[u x] trace IH]; intros l Hs t w k Hk; simpl in *.
  { lia. }
  rewrite filter_cons. unfold inWindow at 1. simpl.
  destruct x; simpl.
  - destruct (decide (false = true)); [done|]. by eapply IH.
  - destruct Hs as [Hu Hs].
    destruct (decide (false = true)); [done|].
    eapply IH; [exact Hs|]. lia.
  - destruct Hs as [Hu Hs].
    destruct (decide _) as [Hin|Hout].
    + apply andb_true_iff in Hin as [Hlo%Z.leb_le Hhi%Z.ltb_lt].
      destruct k as [|k]; [nia|]. simpl.
      apply le_n_S. eapply IH; [exact Hs|]. nia.
    + eapply IH; [exact Hs|]. lia.
Qed.

Section Throttle.

Variable step : Frame -> JS StepExit.
Hypothesis step_throttles : Throttles step.

Lemma runFrames_spaced fs : forall s,
  Spaced (frameIntervalMs (webLoopRef (refs s)))
    (lastRun (webLoopRef (refs s))) (runFrames step fs s).
Proof.
  induction fs as [|f fs IH]; intros s; simpl; [done|].
  unfold fireFrame, mbind, JS_bind, get; simpl.
  destruct (rafId (webLoopRef (refs s))) as [h|]; simpl; [|apply IH].
  destruct (bool_decide _); simpl; [|apply IH].
  match goal with |- context [step f ?s0] =>
    destruct (step_throttles f s0) as (x & s' & -> & Hi & Hx)
  end.
  simpl. specialize (IH s'). rewrite Hi in IH. simpl in *.
  destruct x; simpl.
  - rewrite Hx in IH. exact IH.
  - destruct Hx as [Hl Hx]. rewrite Hl in IH. by split.
  - destruct Hx as [Hl Hx]. rewrite Hl in IH. by split.
Qed.

Lemma throttle_bound fs s t :
  frameIntervalMs (webLoopRef (refs s)) = 200%Z ->
  workIn t 1000 (runFrames step fs s) <= 5.
Proof.
  intros Hi. pose proof (runFrames_spaced fs s) as Hs. rewrite Hi in Hs.
  eapply spaced_window; [|exact Hs|]; lia.
Qed.

End Throttle.

(** C6: a callback that arrives before the interval has elapsed does
    nothing except re-arm (its whole effect is that of [runWebLoop]); a
    callback does the expensive work only when at least the interval has
    elapsed since [lastRun]; and with a 200 ms interval no window of
    1000 ms holds more than 5 callbacks that did the work, whatever the
    scheduling opportunities and their clock readings. *)
Theorem web_loop_self_throttles :
  (forall f s,
      (now f - lastRun (webLoopRef (refs s))
       < frameIntervalMs (webLoopRef (refs s)))%Z ->
      Part000.step f s = (Normal Throttled, exec Part000.runWebLoop s)
      /\ AppJs.step f s = (Normal Throttled, exec AppJs.runWebLoop s))
  /\ (forall f s,
        (Part000.step f s).1 = Normal Worked \/ (AppJs.step f s).1 = Normal Worked ->
        (frameIntervalMs (webLoopRef (refs s))
         <= now f - lastRun (webLoopRef (refs s)))%Z)
  /\ (forall fs s t,
        frameIntervalMs (webLoopRef (refs s)) = 200%Z ->
        workIn t 1000 (runFrames Part000.step fs s) <= 5
        /\ workIn t 1000 (runFrames AppJs.step fs s) <= 5).
Proof.
  split; [|split].
  - intros f s Hlt%Z.ltb_lt.
    destruct s as [[c v ws m l [raf lr fi] nl] hk ho]. simpl in Hlt.
    unfold Part000.step, AppJs.step, exec, Part000.runWebLoop,
      AppJs.runWebLoop, mbind, JS_bind; simpl.
    rewrite Hlt. by split.
  - intros f s [H|H].
    + destruct (step_000_throttles f s) as (x & s' & E & _ & Hx).
      rewrite E in H. simpl in H. injection H as ->. by destruct Hx.
    + destruct (step_app_throttles f s) as (x & s' & E & _ & Hx).
      rewrite E in H. simpl in H. injection H as ->. by destruct Hx.
  - intros fs s t Hi. split.
    + apply throttle_bound; [apply step_000_throttles|done].
    + apply throttle_bound; [apply step_app_throttles|done].
Qed.

(** ** Labels *)

Lemma toPredictions_lookup LABELS (probs : list Q) i p :
  probs !! i = Some p ->
  toPredictions LABELS probs !! i = Some (mkPrediction (labelAt LABELS i) p).
Proof.
  intros H. unfold toPredictions. by rewrite list_lookup_imap, H.
Qed.

Lemma rank_elem LABELS (probs : list Q) x :
  x ∈ toPredictions LABELS probs -> x ∈ rank LABELS probs.
Proof.
  intros H. unfold rank. by rewrite <- (sort_perm compareFn).
Qed.

Lemma to_uint_nonnil n : Nat.to_uint n <> Decimal.Nil.
Proof.
  pose proof (DecimalNat.Unsigned.to_of (Nat.to_uint n)) as H.
  rewrite DecimalNat.Unsigned.of_to in H. rewrite H.
  apply DecimalFacts.unorm_nonnil.
Qed.

(** The decimal digits of [`class_${i}`] read back as [i], so distinct
    indices get distinct placeholders. *)
Lemma class_inj i j : class_ i = class_ j -> i = j.
Proof.
  assert (P : forall x y : string,
             ("class_" +:+ x = "class_" +:+ y)%string -> x = y).
  { intros x y E. cbn [String.append] in E. by injection E. }
  unfold class_. intros H. apply P in H.
  apply (f_equal NilZero.uint_of_string) in H.
  rewrite !NilZero.usu in H by apply to_uint_nonnil.
  injection H as H. by apply DecimalNat.Unsigned.to_uint_inj.
Qed.

(** C9: when the label configured at index [i] is the empty string, the
    prediction built for output index [i] carries the text [class_]
    followed by the decimal digits of [i], inside the configured range;
    that is the entry the ranked result holds; and no other index with an
    empty label gets the same name. *)
Theorem empty_label_gets_placeholder (LABELS : list string) (probs : list Q) i p :
  LABELS !! i = Some ""%string -> probs !! i = Some p ->
  let placeholder :=
    ("class_" +:+ NilZero.string_of_uint (Nat.to_uint i))%string in
  i < length LABELS
  /\ labelAt LABELS i = placeholder
  /\ toPredictions LABELS probs !! i = Some (mkPrediction placeholder p)
  /\ mkPrediction placeholder p ∈ rank LABELS probs
  /\ (forall j, LABELS !! j = Some ""%string ->
        labelAt LABELS j = labelAt LABELS i -> j = i).
Proof.
  intros HL Hp placeholder.
  assert (E : labelAt LABELS i = placeholder).
  { unfold labelAt. rewrite HL. by destruct (decide _). }
  assert (T : toPredictions LABELS probs !! i = Some (mkPrediction placeholder p)).
  { rewrite (toPredictions_lookup _ _ _ _ Hp). by rewrite E. }
  split; [by eapply lookup_lt_Some|]. split; [done|]. split; [done|].
  split; [apply rank_elem; by eapply list_elem_of_lookup_2|].
  intros j Hj. unfold labelAt. rewrite HL, Hj.
  destruct (decide _); [|done]. apply class_inj.
Qed.

Lemma empty_label_gets_placeholder_witness :
  mkPrediction "class_1" (2 # 10)
  ∈ rank ["OR"; ""; "NOT"]%string [7 # 10; 2 # 10; 1 # 10]%Q
  /\ labelAt [""; "AND"; ""]%string 0 = "class_0"%string
  /\ toPredictions [""; "AND"; ""]%string [7 # 10; 2 # 10; 1 # 10]%Q !! 2
     = Some (mkPrediction "class_2" (1 # 10))
  /\ labelAt (replicate 13 ""%string) 12 = "class_12"%string.
Proof.
  split; [|split; [|split]].
  - exact (proj1 (proj2 (proj2 (proj2
      (empty_label_gets_placeholder ["OR"; ""; "NOT"]%string
         [7 # 10; 2 # 10; 1 # 10]%Q 1 (2 # 10) eq_refl eq_refl))))).
  - exact (proj1 (proj2
      (empty_label_gets_placeholder [""; "AND"; ""]%string
         [7 # 10; 2 # 10; 1 # 10]%Q 0 (7 # 10) eq_refl eq_refl))).
  - exact (proj1 (proj2 (proj2
      (empty_label_gets_placeholder [""; "AND"; ""]%string
         [7 # 10; 2 # 10; 1 # 10]%Q 2 (1 # 10) eq_refl eq_refl)))).
  - exact (proj1 (proj2
      (empty_label_gets_placeholder (replicate 13 ""%string)
         (replicate 13 (1 # 13)%Q) 12 (1 # 13) eq_refl eq_refl))).
Defined.

(** ** The loader under concurrent calls *)

(** Against C1 as stated: a first call starts the load.  A second call
    made before it resolves returns null at once when its closure sees [modelLoading = true], and
    starts a second load when its closure still sees [false]; the load in
    flight meanwhile delivers model 1. *)
Lemma loadModel_second_call_not_collapsed :
  let s0 := mounted Part000.webLoopRef_init in
  let s1 := exec (Part000.loadModel_enter false) s0 in
  (Part000.loadModel_enter false s0).1 = Normal Loading
  /\ (Part000.loadModel web true (loader_resolves (Some 1)) s1).1 = Normal None
  /\ (Part000.loadModel_enter false s1).1 = Normal Loading
  /\ (Part000.loadModel_resume web (loader_resolves (Some 1)) s1).1
     = Normal (Some 1)
  /\ (AppJs.loadModel true (loader_resolves (Some 1)) s1).1 = Normal None
  /\ (AppJs.loadModel_enter false s1).1 = Normal Loading.
Proof. repeat split; reflexivity. Qed.

(** C1 (amended): once the handle is stored every call returns it at once
    and loads nothing; while no handle is stored, a call whose closure sees
    [modelLoading = true] starts no load and does not wait, it returns null
    at once and changes nothing; and the load in flight, when it succeeds,
    stores and returns its handle and clears the loading flag. *)
Theorem loadModel_guard os seen o m s :
  (modelRef (refs s) = Some m ->
     Part000.loadModel os seen o s = (Normal (Some m), s)
     /\ AppJs.loadModel seen o s = (Normal (Some m), s))
  /\ (modelRef (refs s) = None ->
      Part000.loadModel os true o s = (Normal None, s)
      /\ AppJs.loadModel true o s = (Normal None, s))
  /\ (let s1 := exec (Part000.loadModel_resume os (loader_resolves (Some m))) s in
      let s2 := exec (AppJs.loadModel_resume (loader_resolves (Some m))) s in
      (Part000.loadModel_resume os (loader_resolves (Some m)) s).1 = Normal (Some m)
      /\ (AppJs.loadModel_resume (loader_resolves (Some m)) s).1 = Normal (Some m)
      /\ modelRef (refs s1) = Some m /\ modelRef (refs s2) = Some m
      /\ modelLoading (hooks s1) = false /\ modelLoading (hooks s2) = false).
Proof.
  split; [|split].
  - intros H.
    unfold Part000.loadModel, AppJs.loadModel, Part000.loadModel_enter,
      AppJs.loadModel_enter, mbind, JS_bind, get.
    rewrite H. by split.
  - intros H.
    unfold Part000.loadModel, AppJs.loadModel, Part000.loadModel_enter,
      AppJs.loadModel_enter, mbind, JS_bind, get.
    rewrite H. by split.
  - destruct os; repeat split; reflexivity.
Qed.

Lemma loadModel_guard_witness :
  let s1 := exec (Part000.loadModel_enter false) (mounted Part000.webLoopRef_init) in
  Part000.loadModel web true loader_rejects s1 = (Normal None, s1)
  /\ Part000.loadModel native false loader_rejects (running_000 native)
     = (Normal (Some 1), running_000 native).
Proof.
  split.
  - exact (proj1 (proj1 (proj2
      (loadModel_guard web true loader_rejects 1
         (exec (Part000.loadModel_enter false) (mounted Part000.webLoopRef_init))))
      eq_refl)).
  - exact (proj1 (proj1
      (loadModel_guard native false loader_rejects 1 (running_000 native))
      eq_refl)).
Defined.

(** ** Stopping with an iteration in flight *)

Lemma stopLive_idle s :
  let s1 := exec Part000.stopLive s in
  liveRef (refs s1) = false /\ liveRunning (hooks s1) = false
  /\ nativeLoopRef (refs s1) = None /\ rafId (webLoopRef (refs s1)) = None.
Proof.
  destruct s as [[c v ws m l [[raf|] lr fi] [nl|]] hk ho];
    repeat split; reflexivity.
Qed.

Lemma unmount_idle s :
  let s1 := exec AppJs.unmount s in
  liveRef (refs s1) = false /\ liveRunning (hooks s1) = false
  /\ nativeLoopRef (refs s1) = None /\ rafId (webLoopRef (refs s1)) = None.
Proof.
  destruct s as [[c v ws m l [[raf|] lr fi] [nl|]] hk ho];
    repeat split; reflexivity.
Qed.

Lemma finally_not_running {A} (body : JS A) (rearm : JS unit) s :
  KeepsLoop body -> liveRef (refs s) = false ->
  loopState
    (exec (try_finally body
             (running ← get (fun s => liveRef (refs s));
              if (running : bool) then rearm else mret tt)) s)
  = loopState s.
Proof.
  intros Hb Hr. specialize (Hb s). unfold exec, try_finally in *.
  destruct (body s) as [r s1]; simpl in *.
  assert (E : liveRef (refs s1) = false).
  { unfold loopState in Hb. congruence. }
  unfold mbind, JS_bind, get. rewrite E. by destruct r.
Qed.

Lemma resume_000_stopped f s :
  liveRef (refs s) = false ->
  loopState (exec (Part000.runNativeLoop_resume f) s) = loopState s.
Proof.
  intros Hr. unfold Part000.runNativeLoop_resume.
  apply finally_not_running; [|done]. keeps.
Qed.

Lemma resume_app_stopped f s :
  liveRef (refs s) = false ->
  loopState (exec (AppJs.runNativeLoop_resume f) s) = loopState s.
Proof.
  intros Hr. unfold AppJs.runNativeLoop_resume.
  apply finally_not_running; [|done]. keeps.
Qed.

Lemma resume_000_rearms : RearmsTimer Part000.runNativeLoop_resume.
Proof.
  intros f s. destruct s as [[c v ws m l w nl] hk ho]. simpl. intros ->.
  destruct f as [n du fp [|uri b64] dec pr]; [by repeat split|].
  destruct dec; [by repeat split|by repeat split|].
  destruct m as [m|]; [|by repeat split].
  destruct pr as [|[| |d]|[|[| |d] ds]]; by repeat split.
Qed.

Lemma resume_app_rearms : RearmsTimer AppJs.runNativeLoop_resume.
Proof.
  intros f s. destruct s as [[c v ws m l w nl] hk ho]. simpl. intros ->.
  destruct f as [n du fp [|uri b64] dec pr]; [by repeat split|].
  destruct dec; [by repeat split|by repeat split|].
  destruct m as [m|]; [|by repeat split].
  destruct pr as [|[| |d]|[|[| |d] ds]]; by repeat split.
Qed.

Lemma resume_000_quiet f s :
  decoded f <> decode_returns ->
  predictions (hooks (exec (Part000.runNativeLoop_resume f) s))
  = predictions (hooks s).
Proof.
  destruct s as [[c v ws m l w nl] hk ho].
  destruct f as [n du fp [|uri b64] [| |] pr]; intros H; try done;
    destruct l; reflexivity.
Qed.

Lemma resume_app_quiet f s :
  decoded f <> decode_returns ->
  predictions (hooks (exec (AppJs.runNativeLoop_resume f) s))
  = predictions (hooks s).
Proof.
  destruct s as [[c v ws m l w nl] hk ho].
  destruct f as [n du fp [|uri b64] [| |] pr]; intros H; try done;
    destruct l; reflexivity.
Qed.

Lemma resume_000_blind f s b :
  predictions (hooks (exec (Part000.runNativeLoop_resume f)
                        (upd_refs (set_liveRef b) s)))
  = predictions (hooks (exec (Part000.runNativeLoop_resume f) s)).
Proof.
  destruct s as [[c v ws m l w nl] hk ho].
  destruct f as [n du fp [|uri b64] [| |] pr];
    try (destruct l, b; vm_compute; reflexivity).
  destruct m as [m|]; [|destruct l, b; vm_compute; reflexivity].
  destruct pr as [|[| |d]|[|[| |d] ds]]; destruct l, b; vm_compute; reflexivity.
Qed.

Lemma resume_app_blind f s b :
  predictions (hooks (exec (AppJs.runNativeLoop_resume f)
                        (upd_refs (set_liveRef b) s)))
  = predictions (hooks (exec (AppJs.runNativeLoop_resume f) s)).
Proof.
  destruct s as [[c v ws m l w nl] hk ho].
  destruct f as [n du fp [|uri b64] [| |] pr];
    try (destruct l, b; vm_compute; reflexivity).
  destruct m as [m|]; [|destruct l, b; vm_compute; reflexivity].
  destruct pr as [|[| |d]|[|[| |d] ds]]; destruct l, b; vm_compute; reflexivity.
Qed.

(** Against C2 as stated: a native session is stopped while its first
    capture is in flight, and started again before that capture settles.
    The stop cleared the flag and left no timer.  When the capture
    settles, the iteration that was in flight at the stop finds the flag
    set again and arms a timer: it has not detected the stop, and it has
    re-armed after the flag was cleared.  (Its frame finds no decoder, so
    nothing is published.) *)
Lemma inflight_rearms_after_restart :
  let s0 := running_000 native in
  let s1 := exec Part000.stopLive s0 in
  let s2 := exec (Part000.startLive native session_ok) s1 in
  let s3 := exec (Part000.runNativeLoop_resume (frame_no_decoder 1000)) s2 in
  pendingCaptures (host s0) = 1
  /\ liveRef (refs s1) = false
  /\ nativeLoopRef (refs s1) = None
  /\ timerQueue (host s1) = ∅
  /\ liveRef (refs s2) = true
  /\ nativeLoopRef (refs s3) = Some 1%positive
  /\ timerQueue (host s3) = {[1%positive]}
  /\ predictions (hooks s3) = [].
Proof. repeat split; reflexivity. Qed.

(** C2 (amended): for an iteration of the native loop that is in flight
    when the session is stopped (by [stopLive], or by the unmount cleanup
    of App.js).  The stop clears the running flag.  If the iteration ends
    right after the stop, or at any other moment at which the flag is
    false, it leaves the flag, the handles and the host queues as it found
    them: it does not re-arm.  If it ends at a moment at which the flag is
    true, as after a new start, it arms a timer and keeps its handle.  The
    predictions it leaves are the same whatever the flag is when it ends;
    it publishes nothing when its frame does not decode. *)
Theorem inflight_rearms_by_flag f s :
  let r0 := Part000.runNativeLoop_resume f in
  let ra := AppJs.runNativeLoop_resume f in
  (liveRef (refs (exec Part000.stopLive s)) = false
   /\ liveRef (refs (exec AppJs.unmount s)) = false)
  /\ (loopState (exec r0 (exec Part000.stopLive s))
      = loopState (exec Part000.stopLive s)
      /\ loopState (exec ra (exec AppJs.unmount s))
         = loopState (exec AppJs.unmount s))
  /\ (liveRef (refs s) = false ->
      loopState (exec r0 s) = loopState s /\ loopState (exec ra s) = loopState s)
  /\ (liveRef (refs s) = true ->
      (nativeLoopRef (refs (exec r0 s)) = Some (nextHandle (host s))
       /\ timerQueue (host (exec r0 s))
          = {[nextHandle (host s)]} ∪ timerQueue (host s))
      /\ (nativeLoopRef (refs (exec ra s)) = Some (nextHandle (host s))
          /\ timerQueue (host (exec ra s))
             = {[nextHandle (host s)]} ∪ timerQueue (host s)))
  /\ (decoded f <> decode_returns ->
      predictions (hooks (exec r0 s)) = predictions (hooks s)
      /\ predictions (hooks (exec ra s)) = predictions (hooks s))
  /\ (forall b,
        predictions (hooks (exec r0 (upd_refs (set_liveRef b) s)))
        = predictions (hooks (exec r0 s))
        /\ predictions (hooks (exec ra (upd_refs (set_liveRef b) s)))
           = predictions (hooks (exec ra s))).
Proof.
  intros r0 ra.
  destruct (stopLive_idle s) as (A1 & _). destruct (unmount_idle s) as (B1 & _).
  split; [by split|].
  split; [split; [by apply resume_000_stopped|by apply resume_app_stopped]|].
  split; [intros Hr; split;
          [by apply resume_000_stopped|by apply resume_app_stopped]|].
  split.
  { intros Hr.
    destruct (resume_000_rearms f s Hr) as (_ & _ & _ & H1 & H2 & _).
    destruct (resume_app_rearms f s Hr) as (_ & _ & _ & H3 & H4 & _).
    by repeat split. }
  split; [intros Hd; split;
          [by apply resume_000_quiet|by apply resume_app_quiet]|].
  intros b. split; [apply resume_000_blind|apply resume_app_blind].
Qed.

Lemma inflight_rearms_by_flag_witness :
  loopState (exec (Part000.runNativeLoop_resume (frame_no_decoder 1000))
               (exec Part000.stopLive (running_000 native)))
  = loopState (exec Part000.stopLive (running_000 native))
  /\ nativeLoopRef (refs (exec (Part000.runNativeLoop_resume (frame_no_decoder 1000))
                            (running_000 native)))
     = Some 1%positive
  /\ predictions (hooks (exec (AppJs.runNativeLoop_resume (frame_no_decoder 1000))
                           (running_app native)))
     = predictions (hooks (running_app native)).
Proof.
  split; [|split].
  - exact (proj1 (proj1 (proj2 (proj2
      (inflight_rearms_by_flag (frame_no_decoder 1000)
         (exec Part000.stopLive (running_000 native))))) eq_refl)).
  - exact (proj1 (proj1 (proj1 (proj2 (proj2 (proj2
      (inflight_rearms_by_flag (frame_no_decoder 1000) (running_000 native)))))
      eq_refl))).
  - refine (proj2 (proj1 (proj2 (proj2 (proj2 (proj2
      (inflight_rearms_by_flag (frame_no_decoder 1000) (running_app native))))))
      _)).
    discriminate.
Defined.

(** ** Output wider than the label list *)

Lemma labelAt_beyond LABELS i : length LABELS <= i -> labelAt LABELS i = class_ i.
Proof.
  intros H. unfold labelAt. by rewrite (lookup_ge_None_2 LABELS i H).
Qed.

Lemma step_000_publishes f s probs :
  (frameIntervalMs (webLoopRef (refs s)) <= now f - lastRun (webLoopRef (refs s)))%Z ->
  truthy (videoRef (refs s)) = true -> truthy (modelRef (refs s)) = true ->
  fromPixels f = true -> predicted f = predict_tensor (dataSync_returns probs) ->
  (Part000.step f s).1 = Normal Worked
  /\ predictions (hooks (exec (Part000.step f) s)) = rank LABELS probs
  /\ console (host (exec (Part000.step f) s)) = console (host s).
Proof.
  destruct s as [[c [v|] ws [m|] l [raf lr fi] nl] hk ho]; simpl; try done.
  destruct f as [n du fp pic dec pr]; simpl.
  intros Hle%Z.ltb_ge _ _ -> ->.
  unfold exec, Part000.step, mbind, JS_bind; simpl.
  rewrite Hle; simpl. by repeat split.
Qed.

Lemma step_app_publishes f s probs :
  (frameIntervalMs (webLoopRef (refs s)) <= now f - lastRun (webLoopRef (refs s)))%Z ->
  truthy (videoRef (refs s)) = true -> truthy (modelRef (refs s)) = true ->
  fromPixels f = true -> predicted f = predict_tensor (dataSync_returns probs) ->
  (AppJs.step f s).1 = Normal Worked
  /\ predictions (hooks (exec (AppJs.step f) s)) = rank LABELS probs
  /\ console (host (exec (AppJs.step f) s)) = console (host s).
Proof.
  destruct s as [[c [v|] ws [m|] l [raf lr fi] nl] hk ho]; simpl; try done.
  destruct f as [n du fp pic dec pr]; simpl.
  intros Hle%Z.ltb_ge _ _ -> ->.
  unfold exec, AppJs.step, mbind, JS_bind; simpl.
  rewrite Hle; simpl. by repeat split.
Qed.

Lemma predictFromTensor_ranks f t s probs :
  truthy (modelRef (refs s)) = true ->
  predicted f = predict_tensor (dataSync_returns probs) ->
  (Part000.predictFromTensor f t s).1 = Normal (Some (rank LABELS probs))
  /\ console (host (exec (Part000.predictFromTensor f t) s)) = console (host s).
Proof.
  destruct s as [[c v ws [m|] l w nl] hk ho]; simpl; try done.
  destruct f as [n du fp pic dec pr]; simpl. intros _ ->. by split.
Qed.

(** Against C4 as stated: with four output values and the three
    configured labels the callback publishes [class_3] for the fourth value and completes, and the console
    holds after the callback exactly what it held before: no diagnostic
    was emitted, so not exactly one. *)
Lemma extra_output_no_diagnostic :
  let f := frame_at 1000
             (predict_tensor
                (dataSync_returns [1 # 10; 2 # 10; 3 # 10; 4 # 10]%Q)) in
  let s := running_000 web in
  let s' := exec (Part000.step f) s in
  (Part000.step f s).1 = Normal Worked
  /\ predictions (hooks s')
     = [mkPrediction "class_3" (4 # 10); mkPrediction "NOT" (3 # 10);
        mkPrediction "AND" (2 # 10); mkPrediction "OR" (1 # 10)]
  /\ console (host s') = console (host s)
  /\ length (console (host s')) <> 1 + length (console (host s)).
Proof. repeat split; try reflexivity. simpl. lia. Qed.

(** C4 (amended): every output index at or past the end of the label list
    is published under [class_<i>] with its value; a callback (or
    [predictFromTensor]) given such an output completes normally and
    publishes the ranking of all the values; and nothing is written to the
    console on that path. *)
Theorem extra_outputs_get_placeholders f t s probs :
  (frameIntervalMs (webLoopRef (refs s)) <= now f - lastRun (webLoopRef (refs s)))%Z ->
  truthy (videoRef (refs s)) = true -> truthy (modelRef (refs s)) = true ->
  fromPixels f = true -> predicted f = predict_tensor (dataSync_returns probs) ->
  (forall i p, probs !! i = Some p -> length LABELS <= i ->
     toPredictions LABELS probs !! i = Some (mkPrediction (class_ i) p)
     /\ mkPrediction (class_ i) p ∈ rank LABELS probs)
  /\ ((AppJs.step f s).1 = Normal Worked
      /\ predictions (hooks (exec (AppJs.step f) s)) = rank LABELS probs
      /\ console (host (exec (AppJs.step f) s)) = console (host s))
  /\ ((Part000.step f s).1 = Normal Worked
      /\ predictions (hooks (exec (Part000.step f) s)) = rank LABELS probs
      /\ console (host (exec (Part000.step f) s)) = console (host s))
  /\ ((Part000.predictFromTensor f t s).1 = Normal (Some (rank LABELS probs))
      /\ console (host (exec (Part000.predictFromTensor f t) s)) = console (host s)).
Proof.
  intros Ht Hv Hm Hp Hr. repeat apply conj.
  - intros i p Hi Hlen.
    assert (T : toPredictions LABELS probs !! i = Some (mkPrediction (class_ i) p)).
    { rewrite (toPredictions_lookup _ _ _ _ Hi). by rewrite labelAt_beyond. }
    split; [done|]. apply rank_elem. by eapply list_elem_of_lookup_2.
  - by eapply step_app_publishes.
  - by eapply step_app_publishes.
  - by eapply step_app_publishes.
  - by eapply step_000_publishes.
  - by eapply step_000_publishes.
  - by eapply step_000_publishes.
  - by eapply predictFromTensor_ranks.
  - by eapply predictFromTensor_ranks.
Qed.

Lemma extra_outputs_get_placeholders_witness :
  mkPrediction "class_3" (4 # 10)
  ∈ rank LABELS [1 # 10; 2 # 10; 3 # 10; 4 # 10]%Q
  /\ console (host (exec (Part000.step
       (frame_at 1000 (predict_tensor
          (dataSync_returns [1 # 10; 2 # 10; 3 # 10; 4 # 10]%Q)))) (running_000 web)))
     = console (host (running_000 web)).
Proof.
  pose proof (extra_outputs_get_placeholders
    (frame_at 1000 (predict_tensor
       (dataSync_returns [1 # 10; 2 # 10; 3 # 10; 4 # 10]%Q)))
    0 (running_000 web) [1 # 10; 2 # 10; 3 # 10; 4 # 10]%Q
    ltac:(vm_compute; discriminate) eq_refl eq_refl eq_refl eq_refl)
    as (Hl & _ & (_ & _ & Hc) & _).
  split; [|exact Hc].
  exact (proj2 (Hl 3 (4 # 10)%Q eq_refl ltac:(simpl; lia))).
Defined.

(** ** Tensors that outlive the call *)

(** Membership on both sides, then propositional reasoning. *)
Ltac same_members := apply set_eq; intros ?; set_unfold; tauto.

(** The animation-frame callback builds every tensor inside [tf.tidy]:
    whatever happens, the engine tracks afterwards what it tracked before. *)
Lemma step_000_releases f s :
  liveTensors (host (exec (Part000.step f) s)) = liveTensors (host s).
Proof.
  destruct s as [[c v ws m l [raf lr fi] nl] hk [nt lt nh rq tq pc co]].
  destruct f as [n du fp pic dec pr].
  unfold exec, Part000.step, mbind, JS_bind; simpl.
  destruct (n - lr <? fi)%Z; simpl; [done|].
  destruct v as [v|], m as [m|]; simpl; try done.
  destruct fp; simpl; [|same_members].
  destruct pr as [|[| |d]|[|[| |d] ds]]; simpl; same_members.
Qed.


(** ** Instances on concrete runs *)

(** The scenario of the throttle: opportunities every 16 ms for one
    second, interval 200 ms; the work runs at 1000, 1208, 1416, 1624 and
    1832 and the other fifty-eight callbacks only re-arm. *)
Example throttle_16ms_scenario :
  let pr := predict_tensor (dataSync_returns [7 # 10; 2 # 10; 1 # 10]%Q) in
  let trace := runFrames Part000.step (frames16 1000 pr) (running_000 web) in
  length trace = 63
  /\ workIn 1000 1000 trace = 5
  /\ map fst (filter (fun e => isWorked e.2 = true) trace)
     = [1000; 1208; 1416; 1624; 1832]%Z.
Proof. vm_compute. repeat split; reflexivity. Qed.

Lemma web_loop_self_throttles_witness :
  Part000.step (frame_at 100 predict_throws) (running_000 web)
  = (Normal Throttled, exec Part000.runWebLoop (running_000 web))
  /\ workIn 1000 1000
       (runFrames Part000.step (frames16 1000 predict_throws) (running_000 web))
     <= 5.
Proof.
  destruct web_loop_self_throttles as (H1 & _ & H3). split.
  - exact (proj1 (H1 (frame_at 100 predict_throws) (running_000 web)
                    ltac:(vm_compute; reflexivity))).
  - exact (proj1 (H3 (frames16 1000 predict_throws) (running_000 web)
                    1000%Z eq_refl)).
Defined.

Lemma start_noop_or_stays_idle_witness :
  Part000.startLive native session_ok (running_000 native)
  = (Normal tt, running_000 native)
  /\ liveRef (refs (exec (Part000.startLive web session_noModel)
                      (mounted Part000.webLoopRef_init))) = false.
Proof.
  split.
  - exact (proj1 (proj1
      (start_noop_or_stays_idle native session_ok (running_000 native))
      eq_refl)).
  - exact (proj1 (proj2
      (start_noop_or_stays_idle web session_noModel
         (mounted Part000.webLoopRef_init)) eq_refl eq_refl eq_refl)).
Defined.

Lemma iteration_failure_confined_witness :
  nativeConfined
    (Part000.runNativeLoop_resume (frame_at 1000 predict_throws)
       (running_000 native)).1
    (running_000 native)
    (exec (Part000.runNativeLoop_resume (frame_at 1000 predict_throws))
       (running_000 native))
  /\ webConfined
       (Part000.step (frame_at 1000 predict_throws) (running_000 web)).1
       (running_000 web)
       (exec (Part000.step (frame_at 1000 predict_throws)) (running_000 web)).
Proof.
  split.
  - exact (proj2 (proj1
      (iteration_failure_confined (frame_at 1000 predict_throws)
         (running_000 native) eq_refl) eq_refl eq_refl)).
  - exact (proj2 (proj2
      (iteration_failure_confined (frame_at 1000 predict_throws)
         (running_000 web) eq_refl)
      ltac:(vm_compute; discriminate) eq_refl eq_refl)).
Defined.

(** The same on any state: when the frame decodes and [predict] throws,
    the decoded tensor, fresh when the iteration created it, is still
    tracked when the iteration has returned. *)
Lemma runNativeLoop_leaks f s uri base64 :
  truthy (modelRef (refs s)) = true ->
  picture f = takePicture_resolves uri base64 ->
  decoded f = decode_returns -> predicted f = predict_throws ->
  nextTensor (host s) ∈ liveTensors (host (exec (Part000.runNativeLoop_resume f) s))
  /\ nextTensor (host s) ∈ liveTensors (host (exec (AppJs.runNativeLoop_resume f) s)).
Proof.
  destruct s as [[c v ws [m|] l w nl] hk [nt lt nh rq tq pc co]]; simpl; [|done].
  destruct f as [n du fp pic dec pr]; simpl. intros _ -> -> ->.
  split; destruct l; simpl; set_unfold; tauto.
Qed.

Lemma runNativeLoop_leaks_witness :
  0 ∈ liveTensors (host (exec
        (Part000.runNativeLoop_resume (frame_at 1000 predict_throws))
        (running_000 native))).
Proof.
  exact (proj1 (runNativeLoop_leaks (frame_at 1000 predict_throws)
                  (running_000 native) _ _ eq_refl eq_refl eq_refl eq_refl)).
Defined.

(** ** Checks of the embedding on small inputs *)

Example class_3 : class_ 3 = "class_3"%string.
Proof. reflexivity. Qed.

Example labelAt_configured :
  map (labelAt LABELS) [0; 1; 2; 3; 10]
  = ["OR"; "AND"; "NOT"; "class_3"; "class_10"]%string.
Proof. reflexivity. Qed.

(** Equal probabilities keep model-output order. *)
Example rank_tie :
  rank LABELS [2 # 10; 4 # 10; 4 # 10]%Q
  = [mkPrediction "AND" (4 # 10); mkPrediction "NOT" (4 # 10);
     mkPrediction "OR" (2 # 10)].
Proof. reflexivity. Qed.

(** After [startLive] on the web: running, one callback queued under
    handle 1, interval 200, model 1 stored, no iteration has run. *)
Example running_000_web :
  let s := running_000 web in
  liveRef (refs s) = true /\ liveRunning (hooks s) = true
  /\ webLoopRef (refs s) = mkWebLoop (Some 1%positive) 0 200
  /\ rafQueue (host s) = {[1%positive]}
  /\ modelRef (refs s) = Some 1 /\ predictions (hooks s) = [].
Proof. repeat split; reflexivity. Qed.

(** After [startLive] on a device: running, the first capture requested,
    no timer armed yet. *)
Example running_000_native :
  let s := running_000 native in
  liveRef (refs s) = true /\ pendingCaptures (host s) = 1
  /\ nativeLoopRef (refs s) = None /\ timerQueue (host s) = ∅.
Proof. repeat split; reflexivity. Qed.

(** A native iteration that goes through publishes, arms the timer under
    handle 1 and leaves only the result of [div] tracked. *)
Example native_iteration_ok :
  let f := frame_at 1000
             (predict_tensor (dataSync_returns [7 # 10; 2 # 10; 1 # 10]%Q)) in
  let s := exec (Part000.runNativeLoop_resume f) (running_000 native) in
  predictions (hooks s)
  = [mkPrediction "OR" (7 # 10); mkPrediction "AND" (2 # 10);
     mkPrediction "NOT" (1 # 10)]
  /\ nativeLoopRef (refs s) = Some 1%positive
  /\ timerQueue (host s) = {[1%positive]}
  /\ pendingCaptures (host s) = 0
  /\ liveTensors (host s) = {[2]}.
Proof. repeat split; reflexivity. Qed.

(** App.js starts its web loop with a 180 ms interval. *)
Example running_app_web :
  frameIntervalMs (webLoopRef (refs (running_app web))) = 180%Z
  /\ rafQueue (host (running_app web)) = {[1%positive]}.
Proof. split; reflexivity. Qed.

(** A callback queued before [stopLive] is cancelled by it: the host has
    nothing to fire afterwards. *)
Example stopLive_cancels_frame :
  let s := exec Part000.stopLive (running_000 web) in
  rafQueue (host s) = ∅
  /\ fireFrame Part000.step (frame_at 1000 predict_throws) s = (Normal None, s).
Proof. split; reflexivity. Qed.

(** When the camera ref is not set the native loop returns before its
    [try]: nothing is requested and nothing is armed. *)
Example runNativeLoop_no_camera :
  let s := upd_refs (fun r => mkRefs false (videoRef r) (webStreamRef r)
                                (modelRef r) (liveRef r) (webLoopRef r)
                                (nativeLoopRef r)) (running_000 native) in
  Part000.runNativeLoop (frame_at 1000 predict_throws) s = (Normal tt, s).
Proof. reflexivity. Qed.

(** * Further properties of the sources *)

(** ** The loader after a failure *)

(** X1: a load that fails (tf.ready or the loader rejects, or the loader
    resolves to null) never throws to its caller: it returns null, clears
    the loading flag, stores nothing, publishes nothing and leaves the
    scheduling state alone; and the failure is not sticky, the next call
    from a closure that sees the cleared flag starts a new load. *)
Theorem loadModel_failure_not_sticky os o s :
  modelRef (refs s) = None -> loaded o = None ->
  let s1 := exec (Part000.loadModel_resume os o) s in
  let s2 := exec (AppJs.loadModel_resume o) s in
  ((Part000.loadModel_resume os o s).1 = Normal None
   /\ modelRef (refs s1) = None /\ modelLoading (hooks s1) = false
   /\ predictions (hooks s1) = predictions (hooks s)
   /\ loopState s1 = loopState s
   /\ (Part000.loadModel_enter false s1).1 = Normal Loading)
  /\ ((AppJs.loadModel_resume o s).1 = Normal None
      /\ modelRef (refs s2) = None /\ modelLoading (hooks s2) = false
      /\ predictions (hooks s2) = predictions (hooks s)
      /\ loopState s2 = loopState s
      /\ (AppJs.loadModel_enter false s2).1 = Normal Loading).
Proof.
  destruct s as [[c v ws m l w nl] hk ho]. simpl. intros -> Hl.
  destruct o as [| |[m|]]; simpl in Hl; try discriminate;
    destruct os; repeat split; reflexivity.
Qed.

Lemma loadModel_failure_not_sticky_witness :
  let s := exec (Part000.loadModel_enter false) (mounted Part000.webLoopRef_init) in
  (Part000.loadModel_enter false
     (exec (Part000.loadModel_resume web loader_rejects) s)).1 = Normal Loading.
Proof.
  exact (proj2 (proj2 (proj2 (proj2 (proj2 (proj1
    (loadModel_failure_not_sticky web loader_rejects
       (exec (Part000.loadModel_enter false) (mounted Part000.webLoopRef_init))
       eq_refl eq_refl))))))).
Defined.

(** ** Stopping *)

(** X2: stopping twice is stopping once, for [stopLive] and for both
    unmount cleanups; and on a session that is not running and holds no
    handle [stopLive] changes nothing at all. *)
Theorem stop_idempotent s :
  exec Part000.stopLive (exec Part000.stopLive s) = exec Part000.stopLive s
  /\ exec Part000.unmount (exec Part000.unmount s) = exec Part000.unmount s
  /\ exec AppJs.unmount (exec AppJs.unmount s) = exec AppJs.unmount s
  /\ (liveRef (refs s) = false -> liveRunning (hooks s) = false ->
      rafId (webLoopRef (refs s)) = None -> nativeLoopRef (refs s) = None ->
      Part000.stopLive s = (Normal tt, s)).
Proof.
  destruct s as [[c v [] m l [[raf|] lr fi] [nl|]]
                 [hp vr wn mo ml lo tr lrn pr ph] ho];
    (repeat split; try reflexivity);
    simpl; intros; subst; try discriminate; reflexivity.
Qed.

Lemma stop_idempotent_witness :
  Part000.stopLive (mounted Part000.webLoopRef_init)
  = (Normal tt, mounted Part000.webLoopRef_init).
Proof.
  exact (proj2 (proj2 (proj2 (stop_idempotent (mounted Part000.webLoopRef_init))))
           eq_refl eq_refl eq_refl eq_refl).
Defined.

Lemma cancel_fresh (h : positive) (q : gset positive) :
  h ∉ q -> ({[h]} ∪ q) ∖ {[h]} = q.
Proof.
  intros Hh. apply set_eq. intros x.
  rewrite elem_of_difference, elem_of_union, elem_of_singleton.
  split.
  - intros [[->|Hx] Hn]; [by destruct Hn|done].
  - intros Hx. split; [by right|]. by intros ->.
Qed.

(** X3: start followed by stop is a round trip on the scheduling state.
    From an idle session whose next handle is not already queued, whatever
    the platform and whether or not the start succeeds, after [startLive]
    and [stopLive] the session is not running, no handle is held and both
    host queues hold exactly what they held before the start. *)
Theorem start_stop_round_trip os e s :
  liveRef (refs s) = false ->
  rafId (webLoopRef (refs s)) = None -> nativeLoopRef (refs s) = None ->
  nextHandle (host s) ∉ rafQueue (host s) ->
  let s' := exec Part000.stopLive (exec (Part000.startLive os e) s) in
  liveRef (refs s') = false /\ liveRunning (hooks s') = false
  /\ rafId (webLoopRef (refs s')) = None /\ nativeLoopRef (refs s') = None
  /\ rafQueue (host s') = rafQueue (host s)
  /\ timerQueue (host s') = timerQueue (host s).
Proof.
  destruct s as [[c v ws m l [raf lr fi] nl] hk [nt lt nh rq tq pc co]].
  simpl. intros -> -> -> Hfresh.
  destruct e as [gum pl seen ld].
  destruct os, m as [m|], ld as [| |[m'|]], seen, c, gum, pl, v as [[[]]|];
    (repeat split; try reflexivity); simpl;
    first [by apply cancel_fresh|same_members].
Qed.

Lemma start_stop_round_trip_witness :
  rafQueue (host (exec Part000.stopLive
     (exec (Part000.startLive web session_ok) (mounted Part000.webLoopRef_init))))
  = rafQueue (host (mounted Part000.webLoopRef_init)).
Proof.
  exact (proj1 (proj2 (proj2 (proj2 (proj2
    (start_stop_round_trip web session_ok (mounted Part000.webLoopRef_init)
       eq_refl eq_refl eq_refl (not_elem_of_empty (C:=gset positive) _))))))).
Defined.

(** ** The web loop stays armed *)

Lemma step_000_rearms : Rearms Part000.step.
Proof.
  intros f s.
  destruct s as [[c v ws m l [raf lr fi] nl] hk ho].
  destruct f as [n du fp pic dec pr].
  unfold Part000.step, mbind, JS_bind; simpl.
  destruct (n - lr <? fi)%Z; simpl; [by eexists _, _|].
  destruct v as [v|], m as [m|]; simpl; try by eexists _, _.
  destruct fp; simpl; [|by eexists _, _].
  destruct pr as [|[| |d]|[|[| |d] ds]]; simpl; by eexists _, _.
Qed.

Lemma step_app_rearms : Rearms AppJs.step.
Proof.
  intros f s.
  destruct s as [[c v ws m l [raf lr fi] nl] hk ho].
  destruct f as [n du fp pic dec pr].
  unfold AppJs.step, mbind, JS_bind; simpl.
  destruct (n - lr <? fi)%Z; simpl; [by eexists _, _|].
  destruct v as [v|], m as [m|]; simpl; try by eexists _, _.
  destruct fp; simpl; [|by eexists _, _].
  destruct pr as [|[| |d]|[|[| |d] ds]]; simpl; by eexists _, _.
Qed.

Section Armed.

Variable step : Frame -> JS StepExit.
Hypothesis step_rearms : Rearms step.

Lemma fireFrame_armed f s :
  armedOnce s ->
  exists x, (fireFrame step f s).1 = Normal (Some x)
            /\ armedOnce (exec (fireFrame step f) s).
Proof.
  intros (h & Hr & Hq & Hlt).
  unfold exec, fireFrame, mbind, JS_bind, get; simpl.
  rewrite Hr, Hq. rewrite bool_decide_eq_true_2 by (by apply elem_of_singleton).
  simpl.
  match goal with |- context [step f ?s0] =>
    destruct (step_rearms f s0) as (x & s' & -> & Hr' & Hq' & Hn')
  end.
  simpl in *. exists x. split; [done|].
  exists (nextHandle (host s)). split; [done|]. split.
  - rewrite Hq', Hq. same_members.
  - rewrite Hn'. lia.
Qed.

Lemma frames_armed fs : forall s,
  armedOnce s ->
  armedOnce (afterFrames step fs s)
  /\ length (runFrames step fs s) = length fs.
Proof.
  induction fs as [|f fs IH]; intros s Ha; simpl; [done|].
  destruct (fireFrame_armed f s Ha) as (x & Hx & Ha').
  unfold exec in *.
  destruct (fireFrame step f s) as [r s']. simpl in *. subst r.
  destruct (IH s' Ha') as [IH1 IH2]. split; [done|]. simpl. by rewrite IH2.
Qed.

End Armed.

(** X4: once the web loop is armed with a single queued callback, it stays
    so through any sequence of scheduling opportunities, whatever the
    frames bring (throttled, not ready, failing or publishing): every
    opportunity runs the callback, and afterwards the queue again holds
    exactly one callback, the one whose handle the loop keeps. *)
Theorem web_loop_stays_armed fs s :
  armedOnce s ->
  (armedOnce (afterFrames Part000.step fs s)
   /\ length (runFrames Part000.step fs s) = length fs)
  /\ (armedOnce (afterFrames AppJs.step fs s)
      /\ length (runFrames AppJs.step fs s) = length fs).
Proof.
  intros Ha. split.
  - apply frames_armed; [apply step_000_rearms|done].
  - apply frames_armed; [apply step_app_rearms|done].
Qed.

Lemma running_000_web_armed : armedOnce (running_000 web).
Proof.
  exists 1%positive. split; [reflexivity|]. split; reflexivity.
Qed.

Lemma web_loop_stays_armed_witness :
  length (runFrames Part000.step (frames16 1000 predict_throws) (running_000 web))
  = length (frames16 1000 predict_throws).
Proof.
  exact (proj2 (proj1 (web_loop_stays_armed (frames16 1000 predict_throws)
                         (running_000 web) running_000_web_armed))).
Defined.

(** ** The native loop: one capture or one timer *)

Lemma enter_000_requests : RequestsCapture Part000.runNativeLoop_enter.
Proof.
  intros s Hc Hm. unfold Part000.runNativeLoop_enter, mbind, JS_bind, get.
  by rewrite Hc, Hm.
Qed.

Lemma enter_app_requests : RequestsCapture AppJs.runNativeLoop_enter.
Proof.
  intros s Hc Hm. unfold AppJs.runNativeLoop_enter, mbind, JS_bind, get.
  by rewrite Hc, Hm.
Qed.

Section Native_cycle.

Variable enter : JS bool.
Variable resume : Frame -> JS unit.
Hypothesis enter_requests : RequestsCapture enter.
Hypothesis resume_rearms : RearmsTimer resume.

Lemma resume_waits f s :
  capturing s ->
  let s1 := exec (resume f) s in
  pendingCaptures (host s1) = 0
  /\ timerQueue (host s1) = {[nextHandle (host s)]}
  /\ nativeLoopRef (refs s1) = Some (nextHandle (host s)).
Proof.
  intros (Hc & Hm & Hr & Hp & Hq) s1.
  destruct (resume_rearms f s Hr) as (_ & _ & _ & Hn & Ht & _ & Hp').
  fold s1 in Hn, Ht, Hp'. rewrite Hp in Hp'. rewrite Hq in Ht.
  split; [done|]. split; [|done]. rewrite Ht. same_members.
Qed.

Lemma nativeCycle_capturing f s :
  capturing s -> capturing (nativeCycle enter resume f s).
Proof.
  intros Hcap. pose proof (resume_waits f s Hcap) as (Hp1 & Hq1 & Hn1).
  destruct Hcap as (Hc & Hm & Hr & Hp & Hq).
  destruct (resume_rearms f s Hr) as (Hc' & Hm' & Hr' & _).
  unfold nativeCycle. rewrite Hn1.
  set (s1 := exec (resume f) s) in *.
  unfold exec, fireTimeout, mbind, JS_bind, get, modify; simpl.
  rewrite Hq1. rewrite bool_decide_eq_true_2 by (by apply elem_of_singleton).
  rewrite enter_requests; simpl; [|congruence|congruence].
  unfold capturing; simpl. rewrite Hc', Hm', Hr', Hp1, Hq1.
  repeat split; try done. same_members.
Qed.

Lemma nativeCycles_capturing fs : forall s,
  capturing s ->
  capturing (foldl (fun s f => nativeCycle enter resume f s) s fs).
Proof.
  induction fs as [|f fs IH]; intros s Hs; simpl; [done|].
  apply IH. by apply nativeCycle_capturing.
Qed.

End Native_cycle.

(** X5: iterations of a native session never overlap.  While camera and
    model stay in place, a session with its single capture in flight and
    no timer goes, when the capture settles, to no capture in flight and
    exactly one timer; when that timer fires it is back to a single
    capture and no timer; and so on through any number of iterations,
    whatever each frame brings. *)
Theorem native_loop_never_overlaps fs f s :
  capturing s ->
  (pendingCaptures (host (exec (Part000.runNativeLoop_resume f) s)) = 0
   /\ timerQueue (host (exec (Part000.runNativeLoop_resume f) s))
      = {[nextHandle (host s)]}
   /\ capturing (foldl (fun s f => nativeCycle Part000.runNativeLoop_enter
                                    Part000.runNativeLoop_resume f s) s fs))
  /\ (pendingCaptures (host (exec (AppJs.runNativeLoop_resume f) s)) = 0
      /\ timerQueue (host (exec (AppJs.runNativeLoop_resume f) s))
         = {[nextHandle (host s)]}
      /\ capturing (foldl (fun s f => nativeCycle AppJs.runNativeLoop_enter
                                       AppJs.runNativeLoop_resume f s) s fs)).
Proof.
  intros Hs. split.
  - destruct (resume_waits _ _ enter_000_requests resume_000_rearms f s Hs)
      as (A & B & _).
    split; [done|]. split; [done|].
    by apply nativeCycles_capturing;
      [apply enter_000_requests|apply resume_000_rearms|].
  - destruct (resume_waits _ _ enter_app_requests resume_app_rearms f s Hs)
      as (A & B & _).
    split; [done|]. split; [done|].
    by apply nativeCycles_capturing;
      [apply enter_app_requests|apply resume_app_rearms|].
Qed.

Lemma running_000_native_capturing : capturing (running_000 native).
Proof. repeat split; reflexivity. Qed.

Lemma native_loop_never_overlaps_witness :
  capturing
    (foldl (fun s f => nativeCycle Part000.runNativeLoop_enter
                         Part000.runNativeLoop_resume f s)
       (running_000 native)
       [frame_at 1000 predict_throws;
        frame_at 1700 (predict_tensor (dataSync_returns [7 # 10; 3 # 10]%Q))]).
Proof.
  exact (proj2 (proj2 (proj1
    (native_loop_never_overlaps
       [frame_at 1000 predict_throws;
        frame_at 1700 (predict_tensor (dataSync_returns [7 # 10; 3 # 10]%Q))]
       (frame_at 1000 predict_throws) (running_000 native)
       running_000_native_capturing)))).
Defined.

(** ** Restarting while a capture is in flight *)





(** ** An iteration in flight at unmount *)

(** X7: the unmount cleanup clears [modelRef], and an iteration that was in
    flight then finishes without publishing predictions and without
    re-arming, whatever its frame brings: in the live variant
    [predictFromTensor] returns null for the missing model, in App.js the
    call on the null model throws inside the iteration's own [try]. *)
Theorem inflight_after_unmount_publishes_nothing f s :
  let u1 := exec Part000.unmount s in
  let u2 := exec (Part000.runNativeLoop_resume f) u1 in
  let a1 := exec AppJs.unmount s in
  let a2 := exec (AppJs.runNativeLoop_resume f) a1 in
  ((Part000.runNativeLoop_resume f u1).1 = Normal tt
   /\ predictions (hooks u2) = predictions (hooks u1)
   /\ loopState u2 = loopState u1)
  /\ ((AppJs.runNativeLoop_resume f a1).1 = Normal tt
      /\ predictions (hooks a2) = predictions (hooks a1)
      /\ loopState a2 = loopState a1).
Proof.
  destruct s as [[c v [] m l [[raf|] lr fi] [nl|]] hk ho];
    destruct f as [n du fp [|uri b64] [| |] pr]; by repeat split.
Qed.

(** ** Snapshots *)

(** X8: a snapshot asked for while no model is held and the loader
    delivers none ends quietly: it returns normally, takes no photo,
    requests no capture, publishes nothing and creates no tensor. *)
Theorem snapshot_without_model os e f s :
  modelRef (refs s) = None -> loaded (load e) = None ->
  let s1 := exec (AppJs.handleSnapshot os e f) s in
  let s2 := exec (Part000.snapshot os e f) s in
  ((AppJs.handleSnapshot os e f s).1 = Normal tt
   /\ photoUri (hooks s1) = photoUri (hooks s)
   /\ predictions (hooks s1) = predictions (hooks s)
   /\ pendingCaptures (host s1) = pendingCaptures (host s)
   /\ nextTensor (host s1) = nextTensor (host s)
   /\ liveTensors (host s1) = liveTensors (host s))
  /\ ((Part000.snapshot os e f s).1 = Normal tt
      /\ photoUri (hooks s2) = photoUri (hooks s)
      /\ predictions (hooks s2) = predictions (hooks s)
      /\ pendingCaptures (host s2) = pendingCaptures (host s)
      /\ nextTensor (host s2) = nextTensor (host s)
      /\ liveTensors (host s2) = liveTensors (host s)).
Proof.
  destruct s as [[c v ws m l w nl] hk ho]. simpl. intros -> Hl.
  destruct e as [gum pl seen [| |[m|]]]; simpl in Hl; try discriminate;
    destruct os, seen; by repeat split.
Qed.

Lemma snapshot_without_model_witness :
  predictions (hooks (exec (AppJs.handleSnapshot web session_noModel
                              (frame_at 1000 predict_throws))
                        (mounted AppJs.webLoopRef_init)))
  = predictions (hooks (mounted AppJs.webLoopRef_init)).
Proof.
  exact (proj1 (proj2 (proj2 (proj1
    (snapshot_without_model web session_noModel (frame_at 1000 predict_throws)
       (mounted AppJs.webLoopRef_init) eq_refl eq_refl))))).
Defined.

Lemma handleSnapshot_web_outcome e f s :
  truthy (modelRef (refs s)) = true -> truthy (videoRef (refs s)) = true ->
  liveTensors (host (exec (AppJs.handleSnapshot web e f) s)) = liveTensors (host s)
  /\ photoUri (hooks (exec (AppJs.handleSnapshot web e f) s)) = Some (dataURL f)
  /\ if negb (fromPixels f) || inferenceFails f
     then (exists x, (AppJs.handleSnapshot web e f s).1 = Throw x)
          /\ predictions (hooks (exec (AppJs.handleSnapshot web e f) s))
             = predictions (hooks s)
     else (AppJs.handleSnapshot web e f s).1 = Normal tt.
Proof.
  destruct s as [[c [v|] ws [m|] l w nl] hk [nt lt nh rq tq pc co]];
    simpl; try done. intros _ _.
  destruct f as [n du [] pic dec pr]; unfold inferenceFails; simpl.
  - destruct pr as [|[| |d]|[|[| |d] ds]];
      (split; [cbn; same_members|]); (split; [reflexivity|]);
      first [reflexivity|split; [eexists; reflexivity|reflexivity]].
  - (split; [cbn; same_members|]); (split; [reflexivity|]);
      split; [eexists; reflexivity|reflexivity].
Qed.

Lemma snapshot_web_outcome e f s :
  truthy (modelRef (refs s)) = true -> truthy (videoRef (refs s)) = true ->
  liveTensors (host (exec (Part000.snapshot web e f) s)) = liveTensors (host s)
  /\ photoUri (hooks (exec (Part000.snapshot web e f) s)) = Some (dataURL f)
  /\ console (host (exec (Part000.snapshot web e f) s)) = console (host s)
  /\ if negb (fromPixels f) || inferenceFails f
     then (exists x, (Part000.snapshot web e f s).1 = Throw x)
          /\ predictions (hooks (exec (Part000.snapshot web e f) s))
             = predictions (hooks s)
     else (Part000.snapshot web e f s).1 = Normal tt.
Proof.
  destruct s as [[c [v|] ws [m|] l w nl] hk [nt lt nh rq tq pc co]];
    simpl; try done. intros _ _.
  destruct f as [n du [] pic dec pr]; unfold inferenceFails; simpl.
  - destruct pr as [|[| |d]|[|[| |d] ds]];
      (split; [cbn; same_members|]); (split; [reflexivity|]);
      (split; [reflexivity|]);
      first [reflexivity|split; [eexists; reflexivity|reflexivity]].
  - (split; [cbn; same_members|]); (split; [reflexivity|]);
      (split; [reflexivity|]);
      split; [eexists; reflexivity|reflexivity].
Qed.

(** X9: unlike the loops, the web snapshot has no [try] around its
    inference.  With model and video in place, a pixel read or an
    inference that fails ends the async function early, after the photo
    was stored and with the predictions untouched.  In App.js the button's
    handler is that async function, [handleSnapshot], so the handler itself
    completes with the error.  In part_000 the button's handler [onPress]
    only calls the async function and drops its promise: the handler
    returns normally in every case, the function it called ends with the
    error, which nothing catches, and nothing is written to the console
    or shown in an alert.  Without such a failure both end normally; and
    in every case the engine tracks afterwards exactly the tensors it
    tracked before. *)
Theorem web_snapshot_errors_escape e f s :
  truthy (modelRef (refs s)) = true -> truthy (videoRef (refs s)) = true ->
  let s1 := exec (AppJs.handleSnapshot web e f) s in
  let s2 := exec (Part000.onPress web e f) s in
  liveTensors (host s1) = liveTensors (host s)
  /\ liveTensors (host s2) = liveTensors (host s)
  /\ photoUri (hooks s1) = Some (dataURL f)
  /\ photoUri (hooks s2) = Some (dataURL f)
  /\ (Part000.onPress web e f s).1 = Normal tt
  /\ console (host s2) = console (host s)
  /\ (negb (fromPixels f) || inferenceFails f = true ->
      (exists x, (AppJs.handleSnapshot web e f s).1 = Throw x)
      /\ (exists x, (Part000.snapshot web e f s).1 = Throw x)
      /\ predictions (hooks s1) = predictions (hooks s)
      /\ predictions (hooks s2) = predictions (hooks s))
  /\ (negb (fromPixels f) || inferenceFails f = false ->
      (AppJs.handleSnapshot web e f s).1 = Normal tt
      /\ (Part000.snapshot web e f s).1 = Normal tt).
Proof.
  intros Hm Hv s1 s2.
  destruct (handleSnapshot_web_outcome e f s Hm Hv) as (A1 & A2 & A3).
  destruct (snapshot_web_outcome e f s Hm Hv) as (B1 & B2 & B0 & B3).
  fold s1 in A1, A2, A3.
  change (exec (Part000.snapshot web e f) s) with s2 in B1, B2, B0, B3.
  repeat (split; [first [assumption|reflexivity]|]).
  destruct (negb (fromPixels f) || inferenceFails f).
  - destruct A3 as [A3 A4], B3 as [B3 B4]. split; [|discriminate].
    intros _. by repeat split.
  - split; [discriminate|]. intros _. by split.
Qed.

Lemma web_snapshot_errors_escape_witness :
  (exists x, (AppJs.handleSnapshot web session_ok (frame_at 1000 predict_throws)
                (running_app web)).1 = Throw x)
  /\ (Part000.onPress web session_ok (frame_at 1000 predict_throws)
        (running_000 web)).1 = Normal tt
  /\ (exists x, (Part000.snapshot web session_ok (frame_at 1000 predict_throws)
                   (running_000 web)).1 = Throw x).
Proof.
  split; [|split].
  - exact (proj1 (proj1 (proj2 (proj2 (proj2 (proj2 (proj2 (proj2
      (web_snapshot_errors_escape session_ok (frame_at 1000 predict_throws)
         (running_app web) eq_refl eq_refl))))))) eq_refl)).
  - exact (proj1 (proj2 (proj2 (proj2 (proj2
      (web_snapshot_errors_escape session_ok (frame_at 1000 predict_throws)
         (running_000 web) eq_refl eq_refl)))))).
  - exact (proj1 (proj2 (proj1 (proj2 (proj2 (proj2 (proj2 (proj2 (proj2
      (web_snapshot_errors_escape session_ok (frame_at 1000 predict_throws)
         (running_000 web) eq_refl eq_refl))))))) eq_refl))).
Defined.

(** The state after the button's handler is the state after the function
    it calls. *)
Lemma onPress_effects os e f s :
  exec (Part000.onPress os e f) s = exec (Part000.snapshot os e f) s.
Proof. reflexivity. Qed.

(** ** The one-shot classification *)





(** ** Opening the camera *)

Lemma startWebCamera_normal e s :
  (AppJs.startWebCamera web e s).1 = Normal tt.
Proof.
  destruct s as [[c v ws m l [raf lr fi] nl] hk ho].
  destruct e as [gum pl seen ld].
  destruct gum; [|reflexivity].
  destruct v as [v|], pl, l, m as [m|], seen, ld as [| |[m'|]]; reflexivity.
Qed.

Lemma startWebCamera_refused e s :
  getUserMedia e = false ->
  let s' := exec (AppJs.startWebCamera web e) s in
  loopState s' = loopState s
  /\ hasPermission (hooks s') = Some false
  /\ webNeedsStart (hooks s') = true
  /\ webStreamRef (refs s') = webStreamRef (refs s)
  /\ console (host s')
     = console (host s)
       ++ [console_error "startWebCamera error";
           alert "Tidak bisa mengakses kamera. Periksa permission di browser."].
Proof.
  destruct s as [[c v ws m l [raf lr fi] nl] hk ho].
  destruct e as [gum pl seen ld]. simpl. intros ->.
  repeat split. simpl. by rewrite <- app_assoc.
Qed.

Lemma startWebCamera_no_play e s :
  getUserMedia e = true -> truthy (videoRef (refs s)) = true ->
  play e = false ->
  let s' := exec (AppJs.startWebCamera web e) s in
  loopState s' = loopState s
  /\ webNeedsStart (hooks s') = true
  /\ webStreamRef (refs s') = true.
Proof.
  destruct s as [[c [v|] ws m l [raf lr fi] nl] hk ho]; [|done].
  destruct e as [gum pl seen ld]. simpl. intros -> _ ->. by repeat split.
Qed.

Lemma startWebCamera_starts e s :
  getUserMedia e = true ->
  truthy (videoRef (refs s)) = false \/ play e = true ->
  liveRef (refs s) = false ->
  truthy (modelRef (refs s)) = true
  \/ (modelLoadingSeen e = false /\ truthy (loaded (load e)) = true) ->
  let s' := exec (AppJs.startWebCamera web e) s in
  liveRef (refs s') = true
  /\ rafId (webLoopRef (refs s')) = Some (nextHandle (host s))
  /\ rafQueue (host s') = {[nextHandle (host s)]} ∪ rafQueue (host s)
  /\ frameIntervalMs (webLoopRef (refs s')) = 180%Z.
Proof.
  destruct s as [[c v ws m l [raf lr fi] nl] hk ho].
  destruct e as [gum pl seen ld]. simpl. intros -> Hvp -> Hml.
  destruct v as [v|], pl; simpl in Hvp;
    try (destruct Hvp; discriminate);
    (destruct m as [m|]; simpl in Hml; [by repeat split|]);
    (destruct Hml as [Hml|[-> Hml]]; [discriminate|]);
    (destruct ld as [| |[m'|]]; simpl in Hml; try discriminate);
    by repeat split.
Qed.

Lemma startWebCamera_needs_stream e s :
  liveRef (refs s) = false ->
  liveRef (refs (exec (AppJs.startWebCamera web e) s)) = true ->
  getUserMedia e = true
  /\ webStreamRef (refs (exec (AppJs.startWebCamera web e) s)) = true.
Proof.
  destruct s as [[c v ws m l [raf lr fi] nl] hk ho].
  destruct e as [gum pl seen ld]. simpl. intros ->.
  destruct gum; [|discriminate].
  destruct v as [v|], pl, m as [m|], seen, ld as [| |[m'|]]; simpl;
    intros H; first [discriminate|by split].
Qed.


(** X16: [startWebCamera] of App.js never throws.  Off the web it does
    nothing.  When the camera is refused it records the refusal
    ([hasPermission] false, [webNeedsStart] true), reports it and starts
    nothing; when the video cannot play it asks for a new start and starts
    nothing; when both succeed and a model is held or can be loaded it
    leaves an idle session running with one callback queued.  In every
    case a session found idle is running afterwards only if the camera
    stream was obtained. *)
Theorem startWebCamera_outcomes e s :
  let s' := exec (AppJs.startWebCamera web e) s in
  AppJs.startWebCamera native e s = (Normal tt, s)
  /\ (AppJs.startWebCamera web e s).1 = Normal tt
  /\ (getUserMedia e = false ->
      loopState s' = loopState s
      /\ hasPermission (hooks s') = Some false
      /\ webNeedsStart (hooks s') = true
      /\ webStreamRef (refs s') = webStreamRef (refs s)
      /\ console (host s')
         = console (host s)
           ++ [console_error "startWebCamera error";
               alert "Tidak bisa mengakses kamera. Periksa permission di browser."])
  /\ (getUserMedia e = true -> truthy (videoRef (refs s)) = true ->
      play e = false ->
      loopState s' = loopState s
      /\ webNeedsStart (hooks s') = true
      /\ webStreamRef (refs s') = true)
  /\ (getUserMedia e = true ->
      truthy (videoRef (refs s)) = false \/ play e = true ->
      liveRef (refs s) = false ->
      truthy (modelRef (refs s)) = true
      \/ (modelLoadingSeen e = false /\ truthy (loaded (load e)) = true) ->
      liveRef (refs s') = true
      /\ rafId (webLoopRef (refs s')) = Some (nextHandle (host s))
      /\ rafQueue (host s') = {[nextHandle (host s)]} ∪ rafQueue (host s)
      /\ frameIntervalMs (webLoopRef (refs s')) = 180%Z)
  /\ (liveRef (refs s) = false -> liveRef (refs s') = true ->
      getUserMedia e = true /\ webStreamRef (refs s') = true).
Proof.
  intros s'. split; [reflexivity|].
  split; [apply startWebCamera_normal|].
  split; [apply startWebCamera_refused|].
  split; [apply startWebCamera_no_play|].
  split; [apply startWebCamera_starts|apply startWebCamera_needs_stream].
Qed.

Lemma startWebCamera_outcomes_witness :
  liveRef (refs (exec (AppJs.startWebCamera web session_ok)
                   (mounted AppJs.webLoopRef_init))) = true.
Proof.
  exact (proj1 (proj1 (proj2 (proj2 (proj2 (proj2
    (startWebCamera_outcomes session_ok (mounted AppJs.webLoopRef_init))))))
    eq_refl (or_intror eq_refl) eq_refl (or_intror (conj eq_refl eq_refl)))).
Defined.

(** ** Mounting the one-shot variant *)

Lemma takeAndClassify_no_model os sh f s :
  model (hooks s) = None -> Part001.takeAndClassify os sh f s = (Normal tt, s).
Proof.
  intros H. unfold Part001.takeAndClassify, mbind, JS_bind, get. by rewrite H.
Qed.

Lemma mountEffect_permission os granted e s :
  let s' := (Part001.mountEffect os granted e s).2 in
  hasPermission (hooks s')
  = Some (match os with web => true | native => granted end)
  /\ (os = web -> webNeedsStart (hooks s') = negb (getUserMedia e)).
Proof.
  destruct s as [[c v ws m l w nl] hk ho], e as [gum pl seen ld].
  destruct os, gum, ld as [| |[m'|]], v as [v|]; split; done.
Qed.

Lemma mountEffect_model os granted e s :
  let r := Part001.mountEffect os granted e s in
  model (hooks r.2)
  = match load e with
    | loader_resolves m => m
    | _ => model (hooks s)
    end
  /\ isTfReady (hooks r.2)
     = match load e with
       | tfReady_rejects => isTfReady (hooks s)
       | _ => true
       end
  /\ match load e with
     | tfReady_rejects => exists x, r.1 = Throw x
     | _ => r.1 = Normal tt
     end.
Proof.
  destruct s as [[c v ws m l w nl] hk ho], e as [gum pl seen ld].
  destruct os, gum, ld as [| |[m'|]], v as [v|];
    (split; [reflexivity|]); (split; [reflexivity|]);
    first [reflexivity|eexists; reflexivity].
Qed.

(** X17: the mount effect of the one-shot variant stores a model exactly
    when the loader resolves.  A rejecting loader is swallowed by the
    effect's [catch] and leaves the model cell as it was; a rejecting
    [tf.ready] escapes the effect before anything is loaded.  On the web
    the permission cell ends [true] even when the camera was refused (the
    refusal shows as [webNeedsStart]).  After a mount that delivered no
    model, [takeAndClassify] does nothing. *)
Theorem mountEffect_outcomes os granted e s :
  let r := Part001.mountEffect os granted e s in
  let s' := r.2 in
  hasPermission (hooks s')
  = Some (match os with web => true | native => granted end)
  /\ (os = web -> webNeedsStart (hooks s') = negb (getUserMedia e))
  /\ (load e = tfReady_rejects ->
      (exists x, r.1 = Throw x)
      /\ model (hooks s') = model (hooks s)
      /\ isTfReady (hooks s') = isTfReady (hooks s))
  /\ (load e = loader_rejects ->
      r.1 = Normal tt /\ model (hooks s') = model (hooks s)
      /\ isTfReady (hooks s') = true)
  /\ (forall m, load e = loader_resolves m ->
      r.1 = Normal tt /\ model (hooks s') = m /\ isTfReady (hooks s') = true)
  /\ (model (hooks s) = None -> loaded (load e) = None ->
      forall sh f, Part001.takeAndClassify os sh f s' = (Normal tt, s')).
Proof.
  intros r s'.
  destruct (mountEffect_permission os granted e s) as [P1 P2].
  destruct (mountEffect_model os granted e s) as (M1 & M2 & M3).
  fold r in P1, P2, M1, M2, M3. fold s' in P1, P2, M1, M2.
  split; [exact P1|]. split; [exact P2|].
  split; [|split; [|split]].
  - intros H. rewrite H in M1, M2, M3. by repeat split.
  - intros H. rewrite H in M1, M2, M3. by repeat split.
  - intros m H. rewrite H in M1, M2, M3. by repeat split.
  - intros Hn Hl sh f. apply takeAndClassify_no_model.
    rewrite M1. destruct (load e) as [| |m]; try done.
Qed.

Lemma mountEffect_outcomes_witness :
  Part001.takeAndClassify web shot (frame_at 1000 predict_throws)
    (Part001.mountEffect web true session_noModel
       (mounted Part000.webLoopRef_init)).2
  = (Normal tt,
     (Part001.mountEffect web true session_noModel
        (mounted Part000.webLoopRef_init)).2).
Proof.
  exact (proj2 (proj2 (proj2 (proj2 (proj2
    (mountEffect_outcomes web true session_noModel
       (mounted Part000.webLoopRef_init))))))
    eq_refl eq_refl shot (frame_at 1000 predict_throws)).
Defined.

(** ** The bars and the top prediction *)

Lemma class_not_configured n label : label ∈ LABELS -> class_ n <> label.
Proof.
  unfold LABELS. intros H E. rewrite <- E in H. unfold class_ in H. simpl in H.
  set_unfold. destruct H as [H|[H|[H|H]]]; try discriminate. done.
Qed.

Lemma labelAt_configured_inj idx j label :
  LABELS !! idx = Some label -> labelAt LABELS j = label -> j = idx.
Proof.
  intros Hi Hj.
  assert (Hin : label ∈ LABELS) by (by eapply list_elem_of_lookup_2).
  destruct (LABELS !! j) as [l|] eqn:E.
  - destruct j as [|[|[|j]]], idx as [|[|[|idx]]]; simpl in *;
      try discriminate; try done;
      injection E as <-; injection Hi as <-; discriminate.
  - unfold labelAt in Hj. rewrite E in Hj. by apply class_not_configured in Hj.
Qed.

Lemma probabilityOf_rank (probs : list Q) idx label :
  LABELS !! idx = Some label ->
  probabilityOf (rank LABELS probs) label = default 0%Q (probs !! idx).
Proof.
  intros Hi. unfold probabilityOf.
  destruct (List.find _ (rank LABELS probs)) as [x|] eqn:F.
  - apply find_some in F as [Hin Hc].
    apply bool_decide_eq_true in Hc.
    apply list_elem_of_In in Hin. unfold rank in Hin.
    rewrite <- (sort_perm compareFn) in Hin. unfold toPredictions in Hin.
    apply elem_of_lookup_imap in Hin as (j & p & -> & Hp). simpl in *.
    apply (labelAt_configured_inj idx) in Hc; [|done]. subst j.
    by rewrite Hp.
  - destruct (probs !! idx) as [p|] eqn:Hp; [|done]. exfalso.
    assert (Hin : mkPrediction label p ∈ rank LABELS probs).
    { apply rank_elem. eapply list_elem_of_lookup_2.
      rewrite (toPredictions_lookup _ _ _ _ Hp). f_equal. f_equal.
      unfold labelAt. rewrite Hi. destruct (decide _) as [->|]; [|done].
      exfalso. apply list_elem_of_lookup_2 in Hi. unfold LABELS in Hi.
      set_unfold. destruct Hi as [?|[?|[?|?]]]; done. }
    apply list_elem_of_In in Hin.
    apply (find_none _ _ F) in Hin. simpl in Hin.
    by apply bool_decide_eq_false in Hin.
Qed.

(** X11: whatever has been published (nothing, an error marker,
    placeholder labels, a full ranking), [renderBars] draws exactly one bar
    per configured label, in the configured order and colours; in App.js
    at most one bar is highlighted, and a highlighted bar is the one of
    the top prediction's label with a positive percentage. *)
Theorem renderBars_shape (percent : Q -> Z) (predictions : list Prediction) :
  map AppJs.label (AppJs.renderBars percent predictions) = LABELS
  /\ map AppJs.color (AppJs.renderBars percent predictions) = BAR_COLORS
  /\ map Part000.label (Part000.renderBars percent predictions) = LABELS
  /\ map Part000.barColor (Part000.renderBars percent predictions) = BAR_COLORS
  /\ (forall i b, AppJs.renderBars percent predictions !! i = Some b ->
        AppJs.highlight b = true ->
        className <$> AppJs.topPrediction predictions = Some (AppJs.label b)
        /\ (0 < AppJs.pct b)%Z)
  /\ (forall i j bi bj,
        AppJs.renderBars percent predictions !! i = Some bi ->
        AppJs.renderBars percent predictions !! j = Some bj ->
        AppJs.highlight bi = true -> AppJs.highlight bj = true -> i = j).
Proof.
  split; [reflexivity|]. split; [reflexivity|].
  split; [reflexivity|]. split; [reflexivity|].
  assert (H : forall i b, AppJs.renderBars percent predictions !! i = Some b ->
            AppJs.highlight b = true ->
            className <$> AppJs.topPrediction predictions = Some (AppJs.label b)
            /\ (0 < AppJs.pct b)%Z /\ LABELS !! i = Some (AppJs.label b)).
  { intros i b Hb Hh. unfold AppJs.renderBars in Hb.
    rewrite list_lookup_imap in Hb.
    destruct (LABELS !! i) as [l|] eqn:E; [|done]. simpl in Hb.
    injection Hb as <-. simpl in *.
    apply andb_true_iff in Hh as [Ht Hp].
    apply bool_decide_eq_true in Ht. apply Z.ltb_lt in Hp. by repeat split. }
  split.
  - intros i b Hb Hh. destruct (H i b Hb Hh) as (A & B & _). by split.
  - intros i j bi bj Hi Hj Hhi Hhj.
    destruct (H i bi Hi Hhi) as (A1 & _ & L1).
    destruct (H j bj Hj Hhj) as (A2 & _ & L2).
    rewrite A1 in A2. injection A2 as A2. rewrite <- A2 in L2.
    destruct i as [|[|[|i]]], j as [|[|[|j]]]; simpl in *;
      try discriminate; try done;
      injection L1 as L1; injection L2 as L2; rewrite <- L1 in L2; discriminate.
Qed.

Lemma renderBars_shape_witness :
  className <$> AppJs.topPrediction (rank LABELS [2 # 10; 7 # 10; 1 # 10]%Q)
  = Some "AND"%string.
Proof.
  exact (proj1 (proj1 (proj2 (proj2 (proj2 (proj2
    (renderBars_shape percent_exact (rank LABELS [2 # 10; 7 # 10; 1 # 10]%Q))))))
    1 (AppJs.mkBar "AND" 70 "#d9534f" true) eq_refl eq_refl)).
Defined.

(** X12: the bars undo the sort.  Given the published ranking of any model
    output, the bar of the label configured at index [idx] shows the
    percentage of the output value at that same index, and of 0 when the
    output is too short to have one; entries published under placeholder
    labels never reach a bar. *)
Theorem renderBars_reads_rank (percent : Q -> Z) (probs : list Q) idx label :
  LABELS !! idx = Some label ->
  (exists b, AppJs.renderBars percent (rank LABELS probs) !! idx = Some b
             /\ AppJs.label b = label
             /\ AppJs.pct b = percent (default 0%Q (probs !! idx)))
  /\ (exists b, Part000.renderBars percent (rank LABELS probs) !! idx = Some b
                /\ Part000.label b = label
                /\ Part000.pct b = percent (default 0%Q (probs !! idx))).
Proof.
  intros Hi. pose proof (probabilityOf_rank probs idx label Hi) as Hp.
  split; eexists; unfold AppJs.renderBars, Part000.renderBars;
    rewrite list_lookup_imap, Hi; simpl;
    (split; [reflexivity|]); simpl; by rewrite Hp.
Qed.

Lemma renderBars_reads_rank_witness :
  exists b, AppJs.renderBars percent_exact
              (rank LABELS [2 # 10; 7 # 10; 1 # 10; 5 # 10]%Q) !! 0 = Some b
            /\ AppJs.label b = "OR"%string
            /\ AppJs.pct b = percent_exact (2 # 10).
Proof.
  exact (proj1 (renderBars_reads_rank percent_exact
                  [2 # 10; 7 # 10; 1 # 10; 5 # 10]%Q 0 "OR" eq_refl)).
Defined.

Lemma sort_length {A} (cmp : A -> A -> Q) l : length (sort cmp l) = length l.
Proof. symmetry. apply Permutation_length, sort_perm. Qed.

Lemma head_filter_first {A} (P : A -> Prop) `{!forall x, Decision (P x)}
    (l : list A) x :
  head (filter P l) = Some x ->
  exists i, l !! i = Some x /\ P x
            /\ forall j y, j < i -> l !! j = Some y -> ~ P y.
Proof.
  induction l as [|a l IH]; [done|].
  rewrite filter_cons. destruct (decide (P a)) as [Ha|Ha]; simpl.
  - intros [= ->]. exists 0. repeat split; [done|]. intros j y Hj. lia.
  - intros Hf. destruct (IH Hf) as (i & Hi & Hp & Hmin).
    exists (S i). repeat split; [done..|].
    intros [|j] y Hj Hy; simpl in Hy.
    + by injection Hy as <-.
    + eapply Hmin; [|done]. lia.
Qed.

Lemma head_sorted_max l top :
  StronglySorted nonIncreasing l -> head l = Some top ->
  forall x, x ∈ l -> (probability x <= probability top)%Q.
Proof.
  intros Hs Hh x Hx. destruct l as [|a l]; [done|]. injection Hh as ->.
  apply StronglySorted_inv in Hs as [_ Hall].
  apply list_elem_of_In in Hx. destruct Hx as [->|Hx]; [apply Qle_refl|].
  rewrite List.Forall_forall in Hall. by apply Hall.
Qed.

(** X13: the ranking holds one prediction per output value, and its first
    entry (the "top prediction" of the screen) carries the largest output
    value; among equal largest values it is the one of the lowest output
    index, labelled for that index. *)
Theorem topPrediction_is_first_maximum LABELS (probs : list Q) :
  length (rank LABELS probs) = length probs
  /\ (probs = [] <-> AppJs.topPrediction (rank LABELS probs) = None)
  /\ forall top, AppJs.topPrediction (rank LABELS probs) = Some top ->
       (forall i p, probs !! i = Some p -> (p <= probability top)%Q)
       /\ exists i, probs !! i = Some (probability top)
                    /\ className top = labelAt LABELS i
                    /\ forall j q, j < i -> probs !! j = Some q ->
                                   (q < probability top)%Q.
Proof.
  assert (Hlen : length (rank LABELS probs) = length probs).
  { unfold rank. rewrite sort_length. unfold toPredictions. apply length_imap. }
  split; [done|]. split.
  - unfold AppJs.topPrediction. split.
    + by intros ->.
    + intros H. destruct (rank LABELS probs) eqn:E; [|done].
      simpl in Hlen. by destruct probs.
  - intros top Htop. unfold AppJs.topPrediction in Htop.
    assert (Hmax : forall i p, probs !! i = Some p -> (p <= probability top)%Q).
    { intros i p Hp.
      change p with (probability (mkPrediction (labelAt LABELS i) p)).
      apply (head_sorted_max (rank LABELS probs) top);
        [apply sort_sorted|done|].
      apply rank_elem. eapply list_elem_of_lookup_2.
      by apply toPredictions_lookup. }
    split; [exact Hmax|].
    pose proof (sort_stable (probability top) (toPredictions LABELS probs)) as St.
    fold (rank LABELS probs) in St.
    assert (Hh : head (filter (fun p => sameProbability (probability top) p = true)
                         (rank LABELS probs)) = Some top).
    { destruct (rank LABELS probs) as [|a l]; [done|]. injection Htop as ->.
      rewrite filter_cons. destruct (decide _) as [|Hn]; [done|].
      exfalso. apply Hn. unfold sameProbability. apply Qeq_bool_iff. reflexivity. }
    rewrite St in Hh.
    apply head_filter_first in Hh as (i & Hi & _ & Hmin).
    unfold toPredictions in Hi. rewrite list_lookup_imap in Hi.
    destruct (probs !! i) as [p|] eqn:Hp; [|done]. simpl in Hi.
    injection Hi as <-. simpl in *.
    exists i. split; [done|]. split; [done|].
    intros j q Hj Hq.
    pose proof (Hmax j q Hq) as Hc. apply Qle_lteq in Hc.
    destruct Hc as [Hlt|Heq]; [done|].
    exfalso. eapply (Hmin j (mkPrediction (labelAt LABELS j) q) Hj).
    + unfold toPredictions. by rewrite list_lookup_imap, Hq.
    + unfold sameProbability. simpl. by apply Qeq_bool_iff.
Qed.

(** ** Bytes of a captured picture *)

Lemma fill_bytes (s : list Z) k :
  k <= length s ->
  foldl (fun bytes i => <[i := toUint8 (charCodeAt s i)]> bytes)
    (replicate (length s) 0%Z) (seq 0 k)
  = map toUint8 (take k s) ++ replicate (length s - k) 0%Z.
Proof.
  induction k as [|k IH]; intros Hk.
  - simpl. by rewrite Nat.sub_0_r.
  - rewrite seq_S, foldl_app. simpl. rewrite IH by lia.
    destruct (lookup_lt_is_Some_2 s k ltac:(lia)) as [x Hx].
    rewrite (take_S_r _ _ _ Hx), map_app. simpl.
    replace (length s - k) with (S (length s - S k)) by lia. simpl.
    assert (Hl : length (map toUint8 (take k s)) = k).
    { rewrite length_map, length_take. lia. }
    rewrite insert_app_r_alt by (rewrite Hl; lia).
    rewrite Hl, Nat.sub_diag. simpl.
    unfold charCodeAt. rewrite Hx. simpl. by rewrite <- app_assoc.
Qed.

Lemma filled_bytes (s : list Z) :
  foldl (fun bytes i => <[i := toUint8 (charCodeAt s i)]> bytes)
    (replicate (length s) 0%Z) (seq 0 (length s))
  = map toUint8 s.
Proof.
  rewrite fill_bytes by lia.
  rewrite Nat.sub_diag, firstn_all. simpl. by rewrite app_nil_r.
Qed.

Lemma toUint8_latin1 (s : list Z) :
  Forall (fun c => 0 <= c < 256)%Z s -> map toUint8 s = s.
Proof.
  induction 1 as [|c s' Hc _ IH]; simpl; [done|].
  rewrite IH. f_equal. unfold toUint8. apply Z.mod_small. lia.
Qed.

(** X14: in each of the three sources [base64ToUint8Array] returns as many
    bytes as the decoded binary string has code units, each byte being the
    code unit modulo 256; for a string of Latin-1 code units, which is what
    a base64 decoder yields, the bytes are the code units themselves.  It
    throws only what [atobPoly] throws.  When the runtime has neither
    [atob] nor [Buffer], that is "atob not available." in App.js and
    part_000, and the longer "atob not available. Install a base64
    polyfill or run in environment with atob/Buffer." in part_001; with
    either of the two present the three sources agree. *)
Theorem base64ToUint8Array_bytes g base64 :
  ((forall s, atobPoly g base64 = Normal s ->
      base64ToUint8Array g base64 = Normal (map toUint8 s)
      /\ (Forall (fun c => 0 <= c < 256)%Z s ->
          base64ToUint8Array g base64 = Normal s))
   /\ (forall e, atobPoly g base64 = Throw e ->
         base64ToUint8Array g base64 = Throw e)
   /\ (global_atob g = None -> Buffer_from g = None ->
       base64ToUint8Array g base64 = Throw "atob not available."))
  /\ ((forall s, Part001.atobPoly g base64 = Normal s ->
         Part001.base64ToUint8Array g base64 = Normal (map toUint8 s)
         /\ (Forall (fun c => 0 <= c < 256)%Z s ->
             Part001.base64ToUint8Array g base64 = Normal s))
      /\ (forall e, Part001.atobPoly g base64 = Throw e ->
            Part001.base64ToUint8Array g base64 = Throw e)
      /\ (global_atob g = None -> Buffer_from g = None ->
          Part001.base64ToUint8Array g base64
          = Throw "atob not available. Install a base64 polyfill or run in environment with atob/Buffer."))
  /\ (is_Some (global_atob g) \/ is_Some (Buffer_from g) ->
      Part001.base64ToUint8Array g base64 = base64ToUint8Array g base64).
Proof.
  split; [|split]; [split; [|split]|split; [|split]|].
  - intros s Hs.
    assert (E : base64ToUint8Array g base64 = Normal (map toUint8 s)).
    { unfold base64ToUint8Array. rewrite Hs. f_equal. apply filled_bytes. }
    split; [exact E|]. intros Hall. by rewrite E, toUint8_latin1.
  - intros e He. unfold base64ToUint8Array. by rewrite He.
  - intros Ha Hb. unfold base64ToUint8Array, atobPoly. by rewrite Ha, Hb.
  - intros s Hs.
    assert (E : Part001.base64ToUint8Array g base64 = Normal (map toUint8 s)).
    { unfold Part001.base64ToUint8Array. rewrite Hs. f_equal.
      apply filled_bytes. }
    split; [exact E|]. intros Hall. by rewrite E, toUint8_latin1.
  - intros e He. unfold Part001.base64ToUint8Array. by rewrite He.
  - intros Ha Hb. unfold Part001.base64ToUint8Array, Part001.atobPoly.
    by rewrite Ha, Hb.
  - unfold Part001.base64ToUint8Array, base64ToUint8Array,
      Part001.atobPoly, atobPoly.
    intros [[a Ha]|[b Hb]].
    + by rewrite Ha.
    + rewrite Hb. by destruct (global_atob g).
Qed.

Lemma base64ToUint8Array_bytes_witness :
  base64ToUint8Array
    (mkGlobals None (Some (fun _ => [255; 216; 255; 224]%Z))) "/9j/4A=="
  = Normal [255; 216; 255; 224]%Z
  /\ base64ToUint8Array (mkGlobals None None) "/9j/4A=="
     = Throw "atob not available."
  /\ Part001.base64ToUint8Array (mkGlobals None None) "/9j/4A=="
     = Throw "atob not available. Install a base64 polyfill or run in environment with atob/Buffer.".
Proof.
  split; [|split].
  - refine (proj2 (proj1 (proj1 (base64ToUint8Array_bytes
      (mkGlobals None (Some (fun _ => [255; 216; 255; 224]%Z))) "/9j/4A=="))
      [255; 216; 255; 224]%Z eq_refl) _).
    repeat constructor; lia.
  - exact (proj2 (proj2 (proj1 (base64ToUint8Array_bytes
      (mkGlobals None None) "/9j/4A=="))) eq_refl eq_refl).
  - exact (proj2 (proj2 (proj1 (proj2 (base64ToUint8Array_bytes
      (mkGlobals None None) "/9j/4A==")))) eq_refl eq_refl).
Defined.

(** ** The Metro configuration *)

(** X15: after the configuration code [bin] is an asset extension, the
    extensions already configured come first and unchanged, an extension
    list without repetition stays without repetition, and running the code
    on its own result changes nothing. *)
Theorem metro_config_adds_bin resolver :
  let exts := default [] (resolver ≫= assetExts) in
  exists exts',
    assetExts (metro_config resolver) = Some exts'
    /\ "bin"%string ∈ exts'
    /\ exts `prefix_of` exts'
    /\ (forall x, x ∈ exts' -> x ∈ exts \/ x = "bin"%string)
    /\ (NoDup exts -> NoDup exts')
    /\ metro_config (Some (metro_config resolver)) = metro_config resolver.
Proof.
  assert (Hb : "bin"%string ∈ ["bin"%string]) by (by apply list_elem_of_singleton).
  destruct resolver as [[[exts|]]|]; simpl; unfold metro_config; simpl.
  - destruct (bool_decide ("bin"%string ∈ exts)) eqn:E.
    + apply bool_decide_eq_true in E. eexists. split; [reflexivity|].
      repeat split; try done; [by left|]. simpl. by rewrite bool_decide_eq_true_2.
    + apply bool_decide_eq_false in E. eexists. split; [reflexivity|].
      assert (Hin : "bin"%string ∈ exts ++ ["bin"%string]).
      { apply elem_of_app. by right. }
      repeat split.
      * exact Hin.
      * by apply prefix_app_r.
      * intros x [Hx|Hx%list_elem_of_singleton]%elem_of_app; [by left|by right].
      * intros Hn. apply NoDup_app. repeat split; [done| |apply NoDup_singleton].
        intros x Hx Hx'%list_elem_of_singleton. by subst.
      * simpl. by rewrite bool_decide_eq_true_2.
  - eexists. split; [reflexivity|]. repeat split; try done.
    + by apply prefix_nil.
    + intros x Hx%list_elem_of_singleton. by right.
    + intros _. apply NoDup_singleton.
  - eexists. split; [reflexivity|]. repeat split; try done.
    + by apply prefix_nil.
    + intros x Hx%list_elem_of_singleton. by right.
    + intros _. apply NoDup_singleton.
Qed.

Lemma topPrediction_is_first_maximum_witness :
  (2 # 10 <= 7 # 10)%Q
  /\ exists i, [2 # 10; 7 # 10; 7 # 10]%Q !! i = Some (7 # 10)%Q
               /\ "AND"%string = labelAt LABELS i
               /\ forall j q, j < i -> [2 # 10; 7 # 10; 7 # 10]%Q !! j = Some q ->
                              (q < 7 # 10)%Q.
Proof.
  split.
  - exact (proj1 (proj2 (proj2
      (topPrediction_is_first_maximum LABELS [2 # 10; 7 # 10; 7 # 10]%Q))
      (mkPrediction "AND" (7 # 10)) eq_refl) 0 (2 # 10)%Q eq_refl).
  - exact (proj2 (proj2 (proj2
      (topPrediction_is_first_maximum LABELS [2 # 10; 7 # 10; 7 # 10]%Q))
      (mkPrediction "AND" (7 # 10)) eq_refl)).
Defined.

Lemma metro_config_adds_bin_witness :
  exists exts',
    assetExts (metro_config (Some (mkResolver (Some ["png"; "jpg"]%string))))
    = Some exts'
    /\ NoDup exts'.
Proof.
  destruct (metro_config_adds_bin (Some (mkResolver (Some ["png"; "jpg"]%string))))
    as (exts' & H1 & _ & _ & _ & H2 & _).
  exists exts'. split; [exact H1|]. apply H2. simpl.
  apply (bool_decide_unpack _). vm_compute. exact I.
Defined.

(** ** The camera checks of [startLive] *)

Lemma startLive_native_no_camera e s :
  liveRef (refs s) = false -> cameraRef (refs s) = false ->
  Part000.startLive native e s
  = (Normal tt, exec (emit (alert "Kamera native belum siap.")) s).
Proof.
  intros Hr Hc. unfold Part000.startLive, mbind, JS_bind, get.
  rewrite Hr, Hc. reflexivity.
Qed.

Lemma startLive_web_no_camera e s :
  liveRef (refs s) = false ->
  videoRef (refs s) = None
  \/ (Part000.noVideoSource (videoRef (refs s)) = true
      /\ getUserMedia e = false) ->
  let s' := exec (Part000.startLive web e) s in
  (Part000.startLive web e s).1 = Normal tt
  /\ loopState s' = loopState s
  /\ modelRef (refs s') = modelRef (refs s)
  /\ modelLoading (hooks s') = modelLoading (hooks s)
  /\ isTfReady (hooks s') = isTfReady (hooks s)
  /\ exists c, console (host s')
       = c ++ [alert "Kamera belum aktif. Tekan Mulai Kamera terlebih dahulu."].
Proof.
  destruct s as [[c v ws m l w nl] hk ho], e as [gum pl seen ld]. simpl.
  intros -> [->|[Hv ->]].
  - destruct gum; repeat split; eexists; reflexivity.
  - destruct v as [[[]]|]; simpl in Hv; try discriminate;
      repeat split; eexists; reflexivity.
Qed.

(** X18: [startLive] gives up before touching the model when it has no
    camera.  On a device without the camera ref it only shows its alert.
    On the web, when there is no video element, or the video has no source
    and the camera cannot be opened, it ends with its alert: nothing is
    scheduled, no load is started and no model is stored. *)
Theorem startLive_needs_camera e s :
  liveRef (refs s) = false ->
  (cameraRef (refs s) = false ->
   Part000.startLive native e s
   = (Normal tt, exec (emit (alert "Kamera native belum siap.")) s))
  /\ (videoRef (refs s) = None
      \/ (Part000.noVideoSource (videoRef (refs s)) = true
          /\ getUserMedia e = false) ->
      let s' := exec (Part000.startLive web e) s in
      (Part000.startLive web e s).1 = Normal tt
      /\ loopState s' = loopState s
      /\ modelRef (refs s') = modelRef (refs s)
      /\ modelLoading (hooks s') = modelLoading (hooks s)
      /\ isTfReady (hooks s') = isTfReady (hooks s)
      /\ exists c, console (host s')
           = c ++ [alert "Kamera belum aktif. Tekan Mulai Kamera terlebih dahulu."]).
Proof.
  intros Hr. split.
  - by apply startLive_native_no_camera.
  - by apply startLive_web_no_camera.
Qed.

Lemma startLive_needs_camera_witness :
  let s := upd_refs (set_videoRef None) (mounted Part000.webLoopRef_init) in
  loopState (exec (Part000.startLive web session_ok) s) = loopState s.
Proof.
  exact (proj1 (proj2 (proj2
    (startLive_needs_camera session_ok
       (upd_refs (set_videoRef None) (mounted Part000.webLoopRef_init)) eq_refl)
    (or_introl eq_refl)))).
Defined.

(** ** What a successful start establishes *)

Lemma startLive_web_arms e s :
  liveRef (refs s) = false ->
  Part000.noVideoSource (videoRef (refs s)) = false ->
  truthy (modelRef (refs s)) = true
  \/ (modelLoadingSeen e = false /\ truthy (loaded (load e)) = true) ->
  rafQueue (host s) = ∅ ->
  armedOnce (exec (Part000.startLive web e) s)
  /\ liveRef (refs (exec (Part000.startLive web e) s)) = true
  /\ frameIntervalMs (webLoopRef (refs (exec (Part000.startLive web e) s))) = 200%Z.
Proof.
  destruct s as [[c v ws m l [raf lr fi] nl] hk [nt lt nh rq tq pc co]].
  destruct e as [gum pl seen ld]. simpl. intros -> Hv Hm ->.
  destruct v as [[[]]|]; simpl in Hv; try discriminate.
  assert (Hq : ({[nh]} ∪ ∅ : gset positive) = {[nh]}) by same_members.
  destruct m as [m|]; simpl in Hm.
  - split; [|by split]. exists nh. simpl. rewrite Hq. repeat split. lia.
  - destruct Hm as [Hm|[-> Hm]]; [discriminate|].
    destruct ld as [| |[m'|]]; simpl in Hm; try discriminate.
    split; [|by split]. exists nh. simpl. rewrite Hq. repeat split. lia.
Qed.

Lemma startLiveInternal_web_arms e s :
  liveRef (refs s) = false ->
  truthy (modelRef (refs s)) = true
  \/ (modelLoadingSeen e = false /\ truthy (loaded (load e)) = true) ->
  rafQueue (host s) = ∅ ->
  armedOnce (exec (AppJs.startLiveInternal web e) s)
  /\ liveRef (refs (exec (AppJs.startLiveInternal web e) s)) = true
  /\ frameIntervalMs (webLoopRef (refs (exec (AppJs.startLiveInternal web e) s)))
     = 180%Z.
Proof.
  destruct s as [[c v ws m l [raf lr fi] nl] hk [nt lt nh rq tq pc co]].
  destruct e as [gum pl seen ld]. simpl. intros -> Hm ->.
  assert (Hq : ({[nh]} ∪ ∅ : gset positive) = {[nh]}) by same_members.
  destruct m as [m|]; simpl in Hm.
  - split; [|by split]. exists nh. simpl. rewrite Hq. repeat split. lia.
  - destruct Hm as [Hm|[-> Hm]]; [discriminate|].
    destruct ld as [| |[m'|]]; simpl in Hm; try discriminate.
    split; [|by split]. exists nh. simpl. rewrite Hq. repeat split. lia.
Qed.

Lemma start_native_captures e s :
  liveRef (refs s) = false -> cameraRef (refs s) = true ->
  truthy (modelRef (refs s)) = true
  \/ (modelLoadingSeen e = false /\ truthy (loaded (load e)) = true) ->
  pendingCaptures (host s) = 0 -> timerQueue (host s) = ∅ ->
  capturing (exec (Part000.startLive native e) s)
  /\ capturing (exec (AppJs.startLiveInternal native e) s).
Proof.
  destruct s as [[c v ws m l [raf lr fi] nl] hk [nt lt nh rq tq pc co]].
  destruct e as [gum pl seen ld]. simpl. intros -> -> Hm -> ->.
  destruct m as [m|]; simpl in Hm.
  - by repeat split.
  - destruct Hm as [Hm|[-> Hm]]; [discriminate|].
    destruct ld as [| |[m'|]]; simpl in Hm; try discriminate.
    by repeat split.
Qed.

(** X19: a start that goes through establishes the state the loops then
    keep.  From an idle session with a model held or loadable: on the web
    (video source in place, empty frame queue) the session is running with
    exactly one callback queued under the handle the loop holds and the
    interval set to 200 ms (180 ms in App.js); on a device (camera ref
    set, nothing pending) the session is running with exactly one capture
    in flight and no timer. *)
Theorem start_establishes_loop os e s :
  liveRef (refs s) = false ->
  truthy (modelRef (refs s)) = true
  \/ (modelLoadingSeen e = false /\ truthy (loaded (load e)) = true) ->
  match os with
  | web =>
      rafQueue (host s) = ∅ ->
      (Part000.noVideoSource (videoRef (refs s)) = false ->
       armedOnce (exec (Part000.startLive web e) s)
       /\ liveRef (refs (exec (Part000.startLive web e) s)) = true
       /\ frameIntervalMs (webLoopRef (refs (exec (Part000.startLive web e) s)))
          = 200%Z)
      /\ armedOnce (exec (AppJs.startLiveInternal web e) s)
      /\ liveRef (refs (exec (AppJs.startLiveInternal web e) s)) = true
      /\ frameIntervalMs
           (webLoopRef (refs (exec (AppJs.startLiveInternal web e) s))) = 180%Z
  | native =>
      cameraRef (refs s) = true ->
      pendingCaptures (host s) = 0 -> timerQueue (host s) = ∅ ->
      capturing (exec (Part000.startLive native e) s)
      /\ capturing (exec (AppJs.startLiveInternal native e) s)
  end.
Proof.
  intros Hr Hm. destruct os.
  - intros Hq. split.
    + intros Hv. by apply startLive_web_arms.
    + by apply startLiveInternal_web_arms.
  - intros Hc Hp Hq. by apply start_native_captures.
Qed.

Lemma start_establishes_loop_witness :
  armedOnce (exec (AppJs.startLiveInternal web session_ok)
               (mounted AppJs.webLoopRef_init))
  /\ capturing (exec (Part000.startLive native session_ok)
                  (mounted Part000.webLoopRef_init)).
Proof.
  split.
  - exact (proj1 (proj2
      (start_establishes_loop web session_ok (mounted AppJs.webLoopRef_init)
         eq_refl (or_intror (conj eq_refl eq_refl)) eq_refl))).
  - exact (proj1
      (start_establishes_loop native session_ok (mounted Part000.webLoopRef_init)
         eq_refl (or_intror (conj eq_refl eq_refl)) eq_refl eq_refl eq_refl)).
Defined.
